(** * Heartbeat monitor with OLED graph: the sampling loop of
      [heartbeat_oled.ino] and its properties.

    The sketch targets an Arduino UNO/Nano (README): [int] is 16 bits,
    [long] and [unsigned long] are 32 bits, [uint8_t] is 8 bits and [float]
    is an IEEE-754 single.  Integers are modelled as [Z] with the wrap-around
    of each C type written out; the float arithmetic of the baseline is taken
    through an interface ([FloatArith]) with binary32 as its instance. *)

From Stdlib Require Import ZArith Zpower Lia Bool String.
From Stdlib Require Import Floats.SpecFloat.
From stdpp Require Import base option list.

Local Open Scope Z_scope.

(** ** Machine integers *)

Module CInt.

(** [unsigned long]: arithmetic modulo 2^32. *)
Definition ulong (z : Z) : Z := z mod 2 ^ 32.

(** [a - b] on [unsigned long] operands. *)
Definition usub (a b : Z) : Z := ulong (a - b).

(** The cast [(int)] to a 16-bit two's complement [int]. *)
Definition to_int (z : Z) : Z := (z + 2 ^ 15) mod 2 ^ 16 - 2 ^ 15.

(** The cast [(uint8_t)]. *)
Definition to_uint8 (z : Z) : Z := z mod 2 ^ 8.

(** [a / b] on [unsigned long] operands; dividing by zero is undefined
    behaviour in C and is a fault of the model. *)
Definition udiv (a b : Z) : option Z :=
  if b =? 0 then None else Some (a / b).

End CInt.
Import CInt.

(** ** Float arithmetic used by the baseline tracker *)

Class FloatArith (F : Type) := {
  f_of_int : Z -> F;          (* conversion of an [int] operand to [float] *)
  f_add : F -> F -> F;
  f_sub : F -> F -> F;
  f_mul : F -> F -> F;
  f_gt : F -> F -> bool;      (* [a > b] *)
  f_one : F;                  (* the literal [1.0f] *)
  f_half_scale : F;           (* the literal [512.0f], initial value of [ema] *)
  emaAlpha : F                (* [const float emaAlpha = 0.05f] *)
}.

(** IEEE-754 binary32, round to nearest even: 24 bits of precision,
    exponent of the infinities 128. *)
Module Binary32.
Definition prec : Z := 24.
Definition emax : Z := 128.
Definition of_int (z : Z) : spec_float := binary_normalize prec emax z 0 false.
(** [0.05f] is 0x3D4CCCCD, that is 13421773 * 2^-28. *)
Definition lit_0_05 : spec_float := S754_finite false 13421773 (-28).
Definition gt (a b : spec_float) : bool := SFltb b a.

(** Neither an infinity nor a NaN. *)
Definition is_finite (x : spec_float) : bool :=
  match x with
  | S754_zero _ | S754_finite _ _ _ => true
  | _ => false
  end.

(** The order of two positive canonical numbers [m * 2^e] and [Bm * 2^Be],
    read on their exponents and mantissas. *)
Definition le_mag (m : positive) (e : Z) (Bm : positive) (Be : Z) : Prop :=
  e < Be \/ (e = Be /\ Zpos m <= Zpos Bm).

(** [x] is a zero or a positive canonical number at most [Bm * 2^Be]. *)
Definition nonneg_le (x : spec_float) (Bm : positive) (Be : Z) : Prop :=
  match x with
  | S754_zero _ => True
  | S754_finite false m e => bounded prec emax m e = true /\ le_mag m e Bm Be
  | _ => False
  end.

Definition nonneg_leb (x : spec_float) (Bm : positive) (Be : Z) : bool :=
  match x with
  | S754_zero _ => true
  | S754_finite false m e =>
      bounded prec emax m e && ((e <? Be) || ((e =? Be) && (Zpos m <=? Zpos Bm)))
  | _ => false
  end.
End Binary32.

#[export] Instance binary32 : FloatArith spec_float := {|
  f_of_int := Binary32.of_int;
  f_add := SFadd Binary32.prec Binary32.emax;
  f_sub := SFsub Binary32.prec Binary32.emax;
  f_mul := SFmul Binary32.prec Binary32.emax;
  f_gt := Binary32.gt;
  f_one := Binary32.of_int 1;
  f_half_scale := Binary32.of_int 512;
  emaAlpha := Binary32.lit_0_05
|}.

(** ** Build-time constants *)

Definition SCREEN_WIDTH : Z := 128.
Definition SCREEN_HEIGHT : Z := 64.
Definition thresholdDelta : Z := 30.
Definition refractoryMs : Z := 250.
Definition graphTop : Z := 20.
Definition graphBottom : Z := SCREEN_HEIGHT - 1.

(** The largest reading of [analogRead] (line 151: 0..1023). *)
Definition MAX_SAMPLE : Z := 1023.

(** A binary32 value that is a number within [0, MAX_SAMPLE]. *)
Definition in_sample_range (x : spec_float) : Prop :=
  valid_binary Binary32.prec Binary32.emax x = true
  /\ SFleb (Binary32.of_int 0) x = true
  /\ SFleb x (Binary32.of_int MAX_SAMPLE) = true.

(** ** The display sink: the calls made on the SSD1306 driver, in order.
    Text and lines are always drawn in [SSD1306_WHITE]. *)

Inductive draw_cmd :=
| ClearDisplay
| SetTextSize (n : Z)
| SetTextColorWhite
| SetCursor (x y : Z)
| Println (s : string)
| PrintStr (s : string)
| PrintInt (n : Z)
| DrawLine (x0 y0 x1 y1 : Z)
| Display.

(** ** Graph coordinates *)

(** [uint8_t mapBpmToY(int v)] *)
Definition mapBpmToY (v : Z) : Z :=
  let v := if v <? 60 then 60 else v in
  let v := if v >? 130 then 130 else v in
  let y := graphBottom - ((graphBottom - graphTop) * (v - 60)) ÷ (130 - 60) in
  let y := if y <? graphTop then graphTop else y in
  let y := if y >? graphBottom then graphBottom else y in
  to_uint8 y.

(** Reading [buf[i]] of the fixed array. *)
Definition rd (buf : list Z) (i : nat) : Z := default 0 (buf !! i).

(** [void pushGraph(int validBpm)]: the shifting [for] loop over
    [i = 0 .. SCREEN_WIDTH - 2], then the store in the last slot. *)
Definition shift_step (buf : list Z) (i : nat) : list Z :=
  <[i := rd buf (S i)]> buf.

Definition shift_left (buf : list Z) : list Z :=
  foldl shift_step buf (seq 0 (Z.to_nat (SCREEN_WIDTH - 1))).

Definition pushGraph (buf : list Z) (validBpm : Z) : list Z :=
  <[Z.to_nat (SCREEN_WIDTH - 1) := mapBpmToY validBpm]> (shift_left buf).

(** ** Program state: the globals of the sketch and the [static] local
    [lastRefresh] of [loop]. *)

Section Sketch.

Context {F : Type} `{FloatArith F}.

Record state := mkState {
  ema : F;
  prevAbove : bool;
  lastBeatMs : Z;
  bpm : Z;
  bpmDisplayed : Z;
  graphBuf : list Z;
  lastRefresh : Z
}.

Definition set_ema (v : F) (s : state) : state :=
  mkState v (prevAbove s) (lastBeatMs s) (bpm s) (bpmDisplayed s) (graphBuf s) (lastRefresh s).
Definition set_prevAbove (v : bool) (s : state) : state :=
  mkState (ema s) v (lastBeatMs s) (bpm s) (bpmDisplayed s) (graphBuf s) (lastRefresh s).
Definition set_lastBeatMs (v : Z) (s : state) : state :=
  mkState (ema s) (prevAbove s) v (bpm s) (bpmDisplayed s) (graphBuf s) (lastRefresh s).
Definition set_bpm (v : Z) (s : state) : state :=
  mkState (ema s) (prevAbove s) (lastBeatMs s) v (bpmDisplayed s) (graphBuf s) (lastRefresh s).
Definition set_bpmDisplayed (v : Z) (s : state) : state :=
  mkState (ema s) (prevAbove s) (lastBeatMs s) (bpm s) v (graphBuf s) (lastRefresh s).
Definition set_graphBuf (v : list Z) (s : state) : state :=
  mkState (ema s) (prevAbove s) (lastBeatMs s) (bpm s) (bpmDisplayed s) v (lastRefresh s).
Definition set_lastRefresh (v : Z) (s : state) : state :=
  mkState (ema s) (prevAbove s) (lastBeatMs s) (bpm s) (bpmDisplayed s) (graphBuf s) v.

(** The globals as initialised before [setup] runs. *)
Definition globals0 : state :=
  mkState f_half_scale false 0 0 0 (replicate (Z.to_nat SCREEN_WIDTH) 0) 0.

(** [setup], once the display has answered: the banner, then the graph
    buffer filled with the mid line (95 BPM). *)
Definition banner : list draw_cmd :=
  [ClearDisplay; SetTextSize 1; SetTextColorWhite; SetCursor 0 0;
   Println "Heartbeat Monitor"; SetCursor 0 10; Println "Range: 60-130 BPM";
   Display].

Definition fill_step (midY : Z) (buf : list Z) (i : nat) : list Z :=
  <[i := midY]> buf.

Definition setup_state : state :=
  let midY := mapBpmToY 95 in
  set_graphBuf
    (foldl (fill_step midY) (graphBuf globals0) (seq 0 (Z.to_nat SCREEN_WIDTH)))
    globals0.

(** [setup]: a display that does not answer leaves the sketch spinning in
    [for (;;)] and [loop] is never entered ([None]). *)
Definition setup (display_ok : bool) : option (state * list draw_cmd) :=
  if display_ok then Some (setup_state, banner) else None.

(** ** [drawUI] *)

(** The big BPM text: the number when it is in range, else the placeholder. *)
Definition bpm_text (s : state) : draw_cmd :=
  if (bpmDisplayed s >=? 60) && (bpmDisplayed s <=? 130)
  then PrintInt (bpmDisplayed s)
  else PrintStr "--".

Definition graph_segment (buf : list Z) (x : nat) : draw_cmd :=
  DrawLine (Z.of_nat x - 1) (rd buf (x - 1)) (Z.of_nat x) (rd buf x).

Definition drawUI (s : state) : list draw_cmd :=
  let y60 := mapBpmToY 60 in
  let y95 := mapBpmToY 95 in
  let y130 := mapBpmToY 130 in
  [ClearDisplay;
   SetTextSize 1; SetTextColorWhite; SetCursor 0 0; Println "Heartbeat (BPM)";
   SetTextSize 2; SetCursor 0 12; bpm_text s;
   SetTextSize 1; SetCursor 80 0; PrintStr "60"; SetCursor 80 8; PrintStr "130";
   DrawLine 0 y60 (SCREEN_WIDTH - 1) y60;
   DrawLine 0 y95 (SCREEN_WIDTH - 1) y95;
   DrawLine 0 y130 (SCREEN_WIDTH - 1) y130]
  ++ map (graph_segment (graphBuf s)) (seq 1 (Z.to_nat (SCREEN_WIDTH - 1)))
  ++ [Display].

(** ** [loop] *)

(** Line 154: [ema = (1.0f - emaAlpha) * ema + emaAlpha * raw]. *)
Definition ema_update (e : F) (raw : Z) : F :=
  f_add (f_mul (f_sub f_one emaAlpha) e) (f_mul emaAlpha (f_of_int raw)).

(** Line 157: [raw > (ema + thresholdDelta)]. *)
Definition classify (e : F) (raw : Z) : bool :=
  f_gt (f_of_int raw) (f_add e (f_of_int thresholdDelta)).

(** Line 168: [(int)(60000UL / rr)]. *)
Definition bpm_of_interval (rr : Z) : option Z :=
  q ← udiv 60000 rr; Some (to_int q).

(** Line 170: the range test. *)
Definition accept (newBpm : Z) : bool := (newBpm >=? 60) && (newBpm <=? 130).

(** Lines 171-174: the accepted branch. *)
Definition accept_beat (newBpm : Z) (s : state) : state * list draw_cmd :=
  let s1 := set_bpm newBpm s in
  let s2 := set_bpmDisplayed (bpm s1) s1 in
  let s3 := set_graphBuf (pushGraph (graphBuf s2) (bpm s2)) s2 in
  (s3, drawUI s3).

(** Lines 165-178: the body run when a rising edge passes the refractory
    test. *)
Definition on_beat (now : Z) (s : state) : option (state * list draw_cmd) :=
  '(s1, out) ←
    (if negb (lastBeatMs s =? 0) then
       let rr := usub now (lastBeatMs s) in
       newBpm ← bpm_of_interval rr;
       if accept newBpm then Some (accept_beat newBpm s) else Some (s, [])
     else Some (s, []));
  Some (set_lastBeatMs now s1, out).

(** Lines 162-180, for a refractory period [refr]. *)
Definition detect_with (refr : Z) (isAbove : bool) (now : Z) (s : state)
  : option (state * list draw_cmd) :=
  if isAbove && negb (prevAbove s) then
    if usub now (lastBeatMs s) >? refr then on_beat now s else Some (s, [])
  else Some (s, []).

(** Lines 186-190: the periodic refresh. *)
Definition refresh (now : Z) (s : state) : state * list draw_cmd :=
  if usub now (lastRefresh s) >? 500 then
    let s1 := set_lastRefresh now s in (s1, drawUI s1)
  else (s, []).

(** One iteration of [loop] on the sample [raw] read from the sensor and
    the clock value [now] returned by [millis()].  The closing [delay(5)]
    changes no variable: the time it takes shows in the next [now]. *)
Definition loop_with (refr : Z) (raw now : Z) (s : state)
  : option (state * list draw_cmd) :=
  let s1 := set_ema (ema_update (ema s) raw) s in
  let isAbove := classify (ema s1) raw in
  '(s2, out1) ← detect_with refr isAbove now s1;
  let s3 := set_prevAbove isAbove s2 in
  let '(s4, out2) := refresh now s3 in
  Some (s4, out1 ++ out2).

Definition loop : Z -> Z -> state -> option (state * list draw_cmd) :=
  loop_with refractoryMs.

(** A run of the sketch: [loop] iterated over the successive
    (sample, clock) readings. *)
Fixpoint run (ins : list (Z * Z)) (s : state) : option (state * list draw_cmd) :=
  match ins with
  | [] => Some (s, [])
  | (raw, now) :: rest =>
      '(s1, out1) ← loop raw now s;
      '(s2, out2) ← run rest s1;
      Some (s2, out1 ++ out2)
  end.

(** ** Path conditions of an iteration, read off the guards of [loop] *)

(** The classification of the sample: line 157, on the baseline updated at
    line 154. *)
Definition is_above (raw : Z) (s : state) : bool :=
  classify (ema_update (ema s) raw) raw.

(** Line 162: a rising-edge candidate. *)
Definition rising_edge (raw : Z) (s : state) : bool :=
  is_above raw s && negb (prevAbove s).

(** The time since the last accepted beat, as line 164 measures it. *)
Definition elapsed (now : Z) (s : state) : Z := usub now (lastBeatMs s).

(** Lines 162-164: the candidate is promoted to an accepted beat (and line
    178 updates the time stamp). *)
Definition beat_detected (raw now : Z) (s : state) : bool :=
  rising_edge raw s && (elapsed now s >? refractoryMs).

(** Lines 165-168: the BPM candidate computed in this iteration, if any. *)
Definition candidate (raw now : Z) (s : state) : option Z :=
  if beat_detected raw now s && negb (lastBeatMs s =? 0)
  then bpm_of_interval (elapsed now s)
  else None.

(** Lines 170-175 are entered: a candidate is computed and is in range. *)
Definition bpm_accepted (raw now : Z) (s : state) : bool :=
  match candidate raw now s with
  | Some c => accept c
  | None => false
  end.

(** Lines 182-190: the end of an iteration that started in [s], once the
    detection block has left the state [s2] and drawn [out1]. *)
Definition finish (raw now : Z) (s2 : state) (out1 : list draw_cmd) (s : state)
  : option (state * list draw_cmd) :=
  let r := refresh now (set_prevAbove (is_above raw s) s2) in
  Some (r.1, out1 ++ r.2).

(** The number of iterations of a run that accept a BPM value. *)
Fixpoint accepted_count (ins : list (Z * Z)) (s : state) : nat :=
  match ins with
  | [] => 0%nat
  | (raw, now) :: rest =>
      match loop raw now s with
      | Some (s1, _) =>
          ((if bpm_accepted raw now s then 1 else 0) + accepted_count rest s1)%nat
      | None => 0%nat
      end
  end.

(** The BPM state is the initial 0 or a value of the window. *)
Definition bpm_valid (v : Z) : Prop := v = 0 \/ 60 <= v <= 130.

Definition bpm_inv (s : state) : Prop :=
  bpm_valid (bpm s) /\ bpm_valid (bpmDisplayed s).

End Sketch.

Arguments state F : clear implicits.
Arguments drawUI : simpl never.
Arguments pushGraph : simpl never.
Arguments mapBpmToY : simpl never.

(** ** Recorded runs on binary32, on which the statements are exercised *)

Module Trace.

(** The state a run from [setup] ends in. *)
Definition state_after (ins : list (Z * Z)) : state spec_float :=
  match run ins setup_state with
  | Some (s, _) => s
  | None => setup_state
  end.

(** A first beat 300 ms after start-up, then the signal falls back. *)
Definition after_first_beat : state spec_float :=
  state_after [(1000, 300); (0, 400)].

End Trace.

(** ** Observations on buffers, frames and runs *)

(** The graph buffer has one slot per column, each a row of the graph
    area. *)
Definition graph_ok (buf : list Z) : Prop :=
  length buf = Z.to_nat SCREEN_WIDTH
  /\ Forall (fun y => graphTop <= y <= graphBottom) buf.

(** A driver call stays on the screen: a line within the columns of the
    display and the rows of the graph area, a cursor within the display. *)
Definition in_graph_area (d : draw_cmd) : Prop :=
  match d with
  | DrawLine x0 y0 x1 y1 =>
      0 <= x0 < SCREEN_WIDTH /\ 0 <= x1 < SCREEN_WIDTH
      /\ graphTop <= y0 <= graphBottom /\ graphTop <= y1 <= graphBottom
  | SetCursor x y => 0 <= x < SCREEN_WIDTH /\ 0 <= y < SCREEN_HEIGHT
  | _ => True
  end.

Section Observations.

Context {F : Type} `{FloatArith F}.

(** The periodic refresh of lines 186-190 is due. *)
Definition refresh_due (now : Z) (s : state F) : bool :=
  usub now (lastRefresh s) >? 500.

(** The BPM values a run accepts, oldest first. *)
Fixpoint accepted_bpms (ins : list (Z * Z)) (s : state F) : list Z :=
  match ins with
  | [] => []
  | (raw, now) :: rest =>
      match loop raw now s with
      | Some (s1, _) =>
          match candidate raw now s with
          | Some c => if accept c then c :: accepted_bpms rest s1
                      else accepted_bpms rest s1
          | None => accepted_bpms rest s1
          end
      | None => []
      end
  end.

(** The number of iterations of a run in which a beat is detected, that is,
    in which line 178 sets the time stamp. *)
Fixpoint detected_count (ins : list (Z * Z)) (s : state F) : nat :=
  match ins with
  | [] => 0%nat
  | (raw, now) :: rest =>
      match loop raw now s with
      | Some (s1, _) =>
          ((if beat_detected raw now s then 1 else 0) + detected_count rest s1)%nat
      | None => 0%nat
      end
  end.

(** Every variable holds a value of its C type: [unsigned long] time
    stamps, [int] BPM values, [uint8_t] slots in an array of
    [SCREEN_WIDTH]. *)
Definition c_typed (s : state F) : Prop :=
  (0 <= lastBeatMs s < 2 ^ 32 /\ 0 <= lastRefresh s < 2 ^ 32)
  /\ (- 2 ^ 15 <= bpm s < 2 ^ 15 /\ - 2 ^ 15 <= bpmDisplayed s < 2 ^ 15)
  /\ length (graphBuf s) = Z.to_nat SCREEN_WIDTH
  /\ Forall (fun y => 0 <= y < 2 ^ 8) (graphBuf s).

End Observations.

(** * Properties *)

(** ** Machine arithmetic *)

Lemma to_int_small z : - 2 ^ 15 <= z < 2 ^ 15 -> to_int z = z.
Proof. intros Hz. unfold to_int. rewrite Z.mod_small; lia. Qed.

Lemma to_uint8_small z : 0 <= z < 2 ^ 8 -> to_uint8 z = z.
Proof. intros Hz. unfold to_uint8. now rewrite Z.mod_small. Qed.

Lemma usub_range a b : 0 <= usub a b < 2 ^ 32.
Proof. unfold usub, ulong. apply Z.mod_pos_bound. lia. Qed.

Lemma usub_same a : usub a a = 0.
Proof. unfold usub, ulong. now rewrite Z.sub_diag. Qed.

Lemma udiv_pos a b : 0 < b -> udiv a b = Some (a / b).
Proof. intros Hb. unfold udiv. destruct (Z.eqb_spec b 0); [lia | reflexivity]. Qed.

(** ** Coordinate mapping *)

Lemma mapBpmToY_closed v :
  mapBpmToY v = 63 - (43 * (Z.max 60 (Z.min 130 v) - 60)) / 70.
Proof.
  unfold mapBpmToY, graphBottom, graphTop, SCREEN_HEIGHT.
  change (64 - 1) with 63. change (63 - 20) with 43. change (130 - 60) with 70.
  set (w := Z.max 60 (Z.min 130 v)).
  assert (Hw : 60 <= w <= 130) by (subst w; lia).
  assert (Hv : (let v0 := if v <? 60 then 60 else v in
                if v0 >? 130 then 130 else v0) = w).
  { subst w. cbv zeta. destruct (Z.ltb_spec v 60).
    - destruct (Z.gtb_spec 60 130); lia.
    - destruct (Z.gtb_spec v 130); lia. }
  cbv zeta in Hv |- *. rewrite Hv.
  rewrite Z.quot_div_nonneg by lia.
  assert (Hq : 0 <= 43 * (w - 60) / 70 <= 43).
  { split.
    - apply Z.div_pos; lia.
    - apply Z.div_le_upper_bound; lia. }
  destruct (Z.ltb_spec (63 - 43 * (w - 60) / 70) 20); [lia |].
  destruct (Z.gtb_spec (63 - 43 * (w - 60) / 70) 63); [lia |].
  apply to_uint8_small. lia.
Qed.

Lemma mapBpmToY_range v : graphTop <= mapBpmToY v <= graphBottom.
Proof.
  rewrite mapBpmToY_closed. unfold graphTop, graphBottom, SCREEN_HEIGHT.
  assert (0 <= 43 * (Z.max 60 (Z.min 130 v) - 60) / 70 <= 43).
  { split.
    - apply Z.div_pos; lia.
    - apply Z.div_le_upper_bound; lia. }
  lia.
Qed.

(** C8: [mapBpmToY] clamps its input to [60,130] and interpolates linearly
    (with the truncating division of the source) onto [graphTop, graphBottom]
    with the axis inverted: 60 maps to the bottom, 130 to the top, the output
    does not increase when the input increases, and inputs below 60 (above
    130) map like 60 (like 130). *)
Theorem mapBpmToY_clamped_linear_inverted :
  (forall v, 60 <= v <= 130 ->
     mapBpmToY v
     = graphBottom - ((graphBottom - graphTop) * (v - 60)) / (130 - 60))
  /\ mapBpmToY 60 = graphBottom
  /\ mapBpmToY 130 = graphTop
  /\ (forall a b, a <= b -> mapBpmToY b <= mapBpmToY a)
  /\ (forall v, v < 60 -> mapBpmToY v = mapBpmToY 60)
  /\ (forall v, 130 < v -> mapBpmToY v = mapBpmToY 130)
  /\ (forall v, graphTop <= mapBpmToY v <= graphBottom).
Proof.
  split; [| split; [| split; [| split; [| split; [| split]]]]].
  - intros v Hv. rewrite mapBpmToY_closed.
    replace (Z.max 60 (Z.min 130 v)) with v by lia. reflexivity.
  - reflexivity.
  - reflexivity.
  - intros a b Hab. rewrite !mapBpmToY_closed.
    assert (43 * (Z.max 60 (Z.min 130 a) - 60) / 70
            <= 43 * (Z.max 60 (Z.min 130 b) - 60) / 70).
    { apply Z.div_le_mono; lia. }
    lia.
  - intros v Hv. rewrite !mapBpmToY_closed.
    now replace (Z.max 60 (Z.min 130 v)) with 60 by lia.
  - intros v Hv. rewrite !mapBpmToY_closed.
    now replace (Z.max 60 (Z.min 130 v)) with 130 by lia.
  - apply mapBpmToY_range.
Qed.

Lemma mapBpmToY_clamped_linear_inverted_witness :
  mapBpmToY 95 <= mapBpmToY 60 /\ mapBpmToY 130 <= mapBpmToY 95
  /\ mapBpmToY 59 = mapBpmToY 60 /\ mapBpmToY 131 = mapBpmToY 130
  /\ mapBpmToY 95 = graphBottom - ((graphBottom - graphTop) * (95 - 60)) / (130 - 60).
Proof.
  destruct mapBpmToY_clamped_linear_inverted
    as (Hlin & _ & _ & Hmono & Hlo & Hhi & _).
  split; [apply (Hmono 60 95); lia |].
  split; [apply (Hmono 95 130); lia |].
  split; [apply (Hlo 59); lia |].
  split; [apply (Hhi 131); lia |].
  apply (Hlin 95); lia.
Defined.

(** ** Trend buffer *)

Lemma shift_left_length (n : nat) (buf : list Z) :
  length (foldl shift_step buf (seq 0 n)) = length buf.
Proof.
  induction n as [|n IH]; [reflexivity |].
  rewrite seq_S, foldl_app. cbn [foldl]. unfold shift_step at 1.
  now rewrite length_insert.
Qed.

(** The state of the array after the first [n] rounds of the shifting loop. *)
Lemma shift_left_lookup (n : nat) (buf : list Z) :
  (n < length buf)%nat ->
  forall i : nat,
    foldl shift_step buf (seq 0 n) !! i
    = if decide (i < n)%nat then buf !! S i else buf !! i.
Proof.
  induction n as [|n IH]; intros Hn i.
  - cbn. destruct (decide (i < 0)%nat); [lia | reflexivity].
  - rewrite seq_S, foldl_app. cbn [foldl Nat.add].
    specialize (IH ltac:(lia)).
    pose proof (shift_left_length n buf) as Hr.
    set (r := foldl shift_step buf (seq 0 n)) in *.
    unfold shift_step, rd.
    rewrite (IH (S n)). destruct (decide (S n < n)%nat) as [|_]; [lia |].
    destruct (decide (i = n)) as [-> | Hne].
    + rewrite list_lookup_insert_eq by lia.
      destruct (decide (n < S n)%nat) as [_|]; [| lia].
      destruct (lookup_lt_is_Some_2 buf (S n) Hn) as [x Hx].
      now rewrite Hx.
    + rewrite list_lookup_insert_ne by congruence.
      rewrite IH.
      destruct (decide (i < n)%nat), (decide (i < S n)%nat); try lia; reflexivity.
Qed.

Lemma pushGraph_shift (buf : list Z) (v : Z) :
  length buf = Z.to_nat SCREEN_WIDTH ->
  pushGraph buf v = drop 1 buf ++ [mapBpmToY v].
Proof.
  intros Hlen. unfold pushGraph, shift_left.
  change (Z.to_nat (SCREEN_WIDTH - 1)) with 127%nat.
  change (Z.to_nat SCREEN_WIDTH) with 128%nat in Hlen.
  apply list_eq. intros i.
  destruct (decide (i = 127%nat)) as [-> | Hne].
  - rewrite list_lookup_insert_eq by (rewrite shift_left_length; lia).
    rewrite lookup_app_r by (rewrite length_drop; lia).
    rewrite length_drop, Hlen. reflexivity.
  - rewrite list_lookup_insert_ne by congruence.
    rewrite shift_left_lookup by lia.
    destruct (decide (i < 127)%nat) as [Hlt | Hge].
    + rewrite lookup_app_l by (rewrite length_drop; lia).
      rewrite lookup_drop. reflexivity.
    + rewrite lookup_ge_None_2 by lia.
      symmetry. apply lookup_ge_None_2. rewrite length_app, length_drop. cbn. lia.
Qed.

Lemma pushGraph_length (buf : list Z) (v : Z) :
  length (pushGraph buf v) = length buf.
Proof.
  unfold pushGraph, shift_left. now rewrite length_insert, shift_left_length.
Qed.

(** Pushing a sequence of values keeps the last [SCREEN_WIDTH] coordinates of
    the old contents followed by the new ones. *)
Lemma pushGraph_many (vs : list Z) :
  forall buf : list Z,
    length buf = Z.to_nat SCREEN_WIDTH ->
    foldl pushGraph buf vs = drop (length vs) (buf ++ map mapBpmToY vs).
Proof.
  induction vs as [|v vs IH]; intros buf Hlen.
  - cbn. now rewrite app_nil_r.
  - cbn [foldl map length].
    rewrite IH by (now rewrite pushGraph_length).
    rewrite pushGraph_shift by assumption.
    destruct buf as [|b buf]; [discriminate Hlen |].
    cbn [drop app]. rewrite drop_0. now rewrite <- app_assoc.
Qed.

(** C7: the trend buffer is a fixed-capacity FIFO.  A push keeps the length
    (the display width, 128), stores the new coordinate in the rightmost
    slot, drops the leftmost one and moves every other slot one place to the
    left, keeping their order; after [SCREEN_WIDTH + 1] pushes the buffer
    holds the coordinates of all pushed values but the first, in push order. *)
Theorem pushGraph_fifo (buf : list Z) :
  length buf = Z.to_nat SCREEN_WIDTH ->
  (forall v,
      length (pushGraph buf v) = Z.to_nat SCREEN_WIDTH
      /\ Z.to_nat SCREEN_WIDTH = 128%nat
      /\ pushGraph buf v = drop 1 buf ++ [mapBpmToY v]
      /\ pushGraph buf v !! 127%nat = Some (mapBpmToY v)
      /\ (forall i, (i < 127)%nat -> pushGraph buf v !! i = buf !! S i))
  /\ (forall vs,
        length (foldl pushGraph buf vs) = Z.to_nat SCREEN_WIDTH)
  /\ (forall vs,
        length vs = S (Z.to_nat SCREEN_WIDTH) ->
        foldl pushGraph buf vs = map mapBpmToY (drop 1 vs)).
Proof.
  intros Hlen. split; [| split].
  - intros v. pose proof (pushGraph_shift buf v Hlen) as Hs.
    change (Z.to_nat SCREEN_WIDTH) with 128%nat in *.
    split; [now rewrite pushGraph_length |].
    split; [reflexivity |]. split; [exact Hs |]. split.
    + rewrite Hs, lookup_app_r by (rewrite length_drop; lia).
      rewrite length_drop, Hlen. reflexivity.
    + intros i Hi. rewrite Hs, lookup_app_l by (rewrite length_drop; lia).
      now rewrite lookup_drop.
  - intros vs. rewrite pushGraph_many by assumption.
    rewrite length_drop, length_app, length_map. lia.
  - intros vs Hvs. rewrite pushGraph_many by assumption.
    rewrite Hvs. rewrite drop_app_ge by lia.
    rewrite Hlen. change (S (Z.to_nat SCREEN_WIDTH) - Z.to_nat SCREEN_WIDTH)%nat with 1%nat.
    symmetry. apply (fmap_drop mapBpmToY 1 vs).
Qed.

Lemma pushGraph_fifo_witness :
  let buf := map Z.of_nat (seq 0 128) in
  pushGraph buf 100 = drop 1 buf ++ [mapBpmToY 100]
  /\ foldl pushGraph buf (map Z.of_nat (seq 60 129))
     = map mapBpmToY (drop 1 (map Z.of_nat (seq 60 129))).
Proof.
  intros buf.
  destruct (pushGraph_fifo buf eq_refl) as (Hpush & _ & Hmany).
  split.
  - apply (Hpush 100).
  - apply (Hmany (map Z.of_nat (seq 60 129))). reflexivity.
Defined.

(** ** Rounding in binary32

    The facts about [SpecFloat]'s rounding that bound the baseline: the
    shifts of [shr], round to nearest even, and the order of canonical
    numbers. *)

(** [digits2_pos p] is the number of bits of [p]. *)
Lemma digits2_pos_bounds (p : positive) :
  2 ^ (Zpos (digits2_pos p) - 1) <= Zpos p < 2 ^ Zpos (digits2_pos p).
Proof.
  induction p as [p IH | p IH |]; cbn [digits2_pos].
  - rewrite Pos2Z.inj_succ.
    replace (Z.succ (Zpos (digits2_pos p)) - 1)
      with (Z.succ (Zpos (digits2_pos p) - 1)) by lia.
    rewrite !Z.pow_succ_r by lia. lia.
  - rewrite Pos2Z.inj_succ.
    replace (Z.succ (Zpos (digits2_pos p)) - 1)
      with (Z.succ (Zpos (digits2_pos p) - 1)) by lia.
    rewrite !Z.pow_succ_r by lia. lia.
  - cbn. lia.
Qed.

(** [iter_pos f p] applies [f] [p] times. *)
Lemma iter_pos_nat {A} (f : A -> A) (p : positive) :
  forall x, SpecFloat.iter_pos f p x = Nat.iter (Pos.to_nat p) f x.
Proof.
  induction p as [p IH | p IH |]; intros x; cbn [SpecFloat.iter_pos].
  - rewrite !IH, Pos2Nat.inj_xI.
    rewrite <- Nat.iter_add. rewrite <- Nat.iter_succ_r. f_equal. lia.
  - rewrite !IH, Pos2Nat.inj_xO. rewrite <- Nat.iter_add. f_equal. lia.
  - reflexivity.
Qed.

(** One shift: the mantissa is halved, the bit shifted out becomes the round
    bit and the old round bit falls into the sticky bit. *)
Lemma shr_1_spec m r s :
  0 <= m -> shr_1 (Build_shr_record m r s) = Build_shr_record (m / 2) (Z.odd m) (r || s).
Proof.
  intros Hm. rewrite <- Z.div2_div.
  destruct m as [|[p|p|]|p]; try lia; reflexivity.
Qed.

Lemma shr_iter_spec m (k : nat) :
  0 <= m ->
  Nat.iter (S k) shr_1 (Build_shr_record m false false)
  = Build_shr_record (m / 2 ^ (Z.of_nat k + 1)) (Z.testbit m (Z.of_nat k))
      (negb (m mod 2 ^ Z.of_nat k =? 0)).
Proof.
  intros Hm. induction k as [|k IH].
  - cbn [Nat.iter Z.of_nat]. rewrite shr_1_spec by lia.
    change (2 ^ (0 + 1)) with 2. change (2 ^ 0) with 1.
    rewrite Z.bit0_odd, Z.mod_1_r. reflexivity.
  - rewrite Nat.iter_succ, IH.
    assert (Hp : 0 < 2 ^ (Z.of_nat k + 1)) by (apply Z.pow_pos_nonneg; lia).
    assert (Hp' : 0 < 2 ^ Z.of_nat k) by (apply Z.pow_pos_nonneg; lia).
    rewrite shr_1_spec by (apply Z.div_pos; lia).
    replace (Z.of_nat (S k)) with (Z.of_nat k + 1) by lia.
    f_equal.
    + rewrite Z.div_div by lia. f_equal.
      rewrite (Z.pow_add_r 2 (Z.of_nat k + 1) 1) by lia. reflexivity.
    + rewrite Z.testbit_odd, Z.shiftr_div_pow2 by lia. reflexivity.
    + rewrite (Z.pow_add_r 2 (Z.of_nat k) 1) by lia. change (2 ^ 1) with 2.
      rewrite Z.rem_mul_r by lia.
      rewrite (Z.testbit_odd m (Z.of_nat k)), Z.shiftr_div_pow2 by lia.
      rewrite Zodd_mod.
      pose proof (Z.mod_pos_bound m (2 ^ Z.of_nat k) Hp').
      pose proof (Z.mod_pos_bound (m / 2 ^ Z.of_nat k) 2 ltac:(lia)).
      set (lo := m mod 2 ^ Z.of_nat k) in *.
      set (hi := (m / 2 ^ Z.of_nat k) mod 2) in *.
      destruct (Z.eqb_spec hi 1) as [E|E];
        destruct (Z.eqb_spec lo 0) as [E2|E2]; cbn;
        destruct (Z.eqb_spec (lo + 2 ^ Z.of_nat k * hi) 0);
        try reflexivity; nia.
Qed.

(** Shifting [n] bits out of [m]: the quotient, the last bit shifted out and
    whether anything below it was set. *)
Lemma shr_spec m e n :
  0 <= m -> 0 < n ->
  shr (Build_shr_record m false false) e n
  = (Build_shr_record (m / 2 ^ n) (Z.testbit m (n - 1))
       (negb (m mod 2 ^ (n - 1) =? 0)), e + n).
Proof.
  intros Hm Hn. destruct n as [|p|p]; try lia. cbn [shr].
  rewrite iter_pos_nat.
  destruct (Pos.to_nat p) as [|k] eqn:Hk; [lia |].
  rewrite shr_iter_spec by exact Hm.
  replace (Z.of_nat k) with (Z.pos p - 1) by lia.
  replace (Z.pos p - 1 + 1) with (Z.pos p) by lia. reflexivity.
Qed.

Lemma shr_nop mrs e n : n <= 0 -> shr mrs e n = (mrs, e).
Proof. intros Hn. destruct n; try lia; reflexivity. Qed.

(** Rounding after the shift moves the quotient up by at most one, and
    leaves it when the part shifted out is less than half a unit. *)
Lemma round_nearest_even_spec m n :
  0 <= m -> 0 < n ->
  let q := m / 2 ^ n in
  let m' := round_nearest_even q
              (loc_of_shr_record
                 (Build_shr_record q (Z.testbit m (n - 1))
                    (negb (m mod 2 ^ (n - 1) =? 0)))) in
  q <= m' <= q + 1 /\ (2 * (m mod 2 ^ n) < 2 ^ n -> m' = q).
Proof.
  intros Hm Hn q m'.
  assert (Hbit : Z.testbit m (n - 1) = true -> 2 ^ n <= 2 * (m mod 2 ^ n)).
  { intros Hb. rewrite Z.testbit_odd, Z.shiftr_div_pow2, Zodd_mod in Hb by lia.
    apply Z.eqb_eq in Hb.
    assert (Hp : 0 < 2 ^ (n - 1)) by (apply Z.pow_pos_nonneg; lia).
    replace n with (n - 1 + 1) at 1 2 by lia.
    rewrite (Z.pow_add_r 2 (n - 1) 1) by lia. change (2 ^ 1) with 2.
    rewrite Z.rem_mul_r by lia. rewrite Hb.
    pose proof (Z.mod_pos_bound m (2 ^ (n - 1)) Hp). lia. }
  subst m'. cbn [loc_of_shr_record].
  destruct (Z.testbit m (n - 1)) eqn:Hb;
    destruct (negb (m mod 2 ^ (n - 1) =? 0)); cbn [round_nearest_even];
    try (destruct (Z.even q)); specialize (Hbit ltac:(auto)) || clear Hbit;
    split; intros; lia.
Qed.

(** The exponent of the canonical form, and canonical numbers, in binary32. *)
Lemma fexp32 e : fexp 24 128 e = Z.max (e - 24) (-149).
Proof. reflexivity. Qed.

Lemma bounded32 m e :
  bounded 24 128 m e = true <->
  (e = Z.max (Zpos (digits2_pos m) + e - 24) (-149) /\ e <= 104).
Proof.
  unfold bounded, canonical_mantissa. rewrite fexp32.
  rewrite andb_true_iff, Z.eqb_eq, Z.leb_le. change (128 - 24) with 104. lia.
Qed.

Lemma digits2_pos_unique (p : positive) (k : Z) :
  2 ^ (k - 1) <= Zpos p < 2 ^ k -> Zpos (digits2_pos p) = k.
Proof.
  intros [Hlo Hhi]. pose proof (digits2_pos_bounds p) as [Dlo Dhi].
  set (d := Zpos (digits2_pos p)) in *.
  assert (0 < d) by (subst d; lia).
  assert (0 < k).
  { destruct (Z.lt_ge_cases 0 k); [assumption |].
    destruct (Z.eq_dec k 0) as [-> | ?]; [cbn in Hhi; lia |].
    rewrite Z.pow_neg_r in Hhi by lia. lia. }
  destruct (Z.lt_trichotomy d k) as [Hlt | [Heq | Hgt]]; [| exact Heq |].
  - assert (2 ^ d <= 2 ^ (k - 1)) by (apply Z.pow_le_mono_r; lia). lia.
  - assert (2 ^ k <= 2 ^ (d - 1)) by (apply Z.pow_le_mono_r; lia). lia.
Qed.

(** Monotonicity of rounding against a representable bound: a positive
    [mx * 2^ex] with bits to shift out ([ex] at most the canonical exponent)
    that lies strictly below the midpoint between the canonical [Bm * 2^Be]
    and its successor is rounded to a zero or to a canonical number at most
    [Bm * 2^Be]. *)
Lemma binary_round_aux_le (mx : positive) (ex : Z) (Bm : positive) (Be : Z) :
  ex <= fexp 24 128 (Zpos (digits2_pos mx) + ex) ->
  bounded 24 128 Bm Be = true ->
  2 * Zpos mx < (2 * Zpos Bm + 1) * 2 ^ (Be - ex) ->
  binary_round_aux 24 128 false (Zpos mx) ex loc_Exact = S754_zero false
  \/ exists m' e',
       binary_round_aux 24 128 false (Zpos mx) ex loc_Exact = S754_finite false m' e'
       /\ bounded 24 128 m' e' = true /\ Binary32.le_mag m' e' Bm Be.
Proof.
  intros Hn HB Hx.
  apply bounded32 in HB as [HBe HBmax].
  pose proof (digits2_pos_bounds mx) as Hd.
  pose proof (digits2_pos_bounds Bm) as HdB.
  unfold binary_round_aux, shr_fexp. cbn [Zdigits2 shr_record_of_loc].
  rewrite fexp32 in *.
  set (d := Zpos (digits2_pos mx)) in *. set (dB := Zpos (digits2_pos Bm)) in *.
  assert (Hdpos : 0 < d) by (subst d; lia).
  assert (HdBpos : 0 < dB) by (subst dB; lia).
  assert (Hex : ex <= Be).
  { destruct (Z.le_gt_cases ex Be); [assumption |].
    rewrite Z.pow_neg_r in Hx by lia. lia. }
  assert (HP : 0 < 2 ^ (Be - ex)) by (apply Z.pow_pos_nonneg; lia).
  assert (Hmag : d + ex <= dB + Be).
  { destruct (Z.le_gt_cases (d + ex) (dB + Be)); [assumption | exfalso].
    assert (H1 : 2 ^ (dB + (Be - ex)) <= 2 ^ (d - 1)) by (apply Z.pow_le_mono_r; lia).
    rewrite Z.pow_add_r in H1 by lia. nia. }
  set (e1 := Z.max (d + ex - 24) (-149)) in *.
  assert (He1 : e1 <= Be) by lia.
  assert (HBnorm : e1 < Be -> 2 ^ 23 <= Zpos Bm).
  { intros Hlt. assert (dB = 24) by lia.
    replace 23 with (dB - 1) by lia. apply HdB. }
  destruct (Z.eq_dec e1 ex) as [E | E].
  - (* the mantissa already fits: nothing is shifted out *)
    rewrite E, Z.sub_diag. cbn [shr loc_of_shr_record round_nearest_even shr_m
                                 Zdigits2 shr_record_of_loc].
    fold d. rewrite fexp32. fold e1. rewrite E, Z.sub_diag. cbn [shr shr_m].
    change (128 - 24) with 104.
    destruct (Z.leb_spec ex 104); [| lia].
    right. exists mx, ex. split; [reflexivity |]. split.
    + apply bounded32. fold d. fold e1. lia.
    + unfold Binary32.le_mag. destruct (Z.eq_dec ex Be) as [-> | ?]; [right | left; lia].
      split; [reflexivity |]. rewrite Z.sub_diag in Hx. lia.
  - (* [n] low bits are shifted out and rounded *)
    set (n := e1 - ex) in *. assert (Hnpos : 0 < n) by lia.
    rewrite shr_spec by lia.
    assert (H2n : 0 < 2 ^ n) by (apply Z.pow_pos_nonneg; lia).
    destruct (round_nearest_even_spec (Zpos mx) n ltac:(lia) Hnpos) as [Hm' Hdown].
    cbv zeta in Hm', Hdown. cbn [shr_m].
    set (q := Zpos mx / 2 ^ n) in *.
    set (m' := round_nearest_even q _) in *.
    assert (Hq0 : 0 <= q) by (apply Z.div_pos; lia).
    assert (Hq24 : q < 2 ^ 24).
    { apply Z.div_lt_upper_bound; [lia |].
      assert (2 ^ d <= 2 ^ (n + 24)) by (apply Z.pow_le_mono_r; lia).
      rewrite Z.pow_add_r in * by lia. lia. }
    assert (Hq23 : -149 < e1 -> 2 ^ 23 <= q).
    { intros Hnorm. apply Z.div_le_lower_bound; [lia |].
      assert (2 ^ (n + 23) <= 2 ^ (d - 1)) by (apply Z.pow_le_mono_r; lia).
      rewrite Z.pow_add_r in * by lia. lia. }
    assert (Htight : e1 = Be -> m' <= Zpos Bm).
    { intros HeB. assert (Hn' : n = Be - ex) by lia. rewrite <- Hn' in Hx.
      assert (q <= Zpos Bm).
      { apply Z.lt_succ_r. apply Z.div_lt_upper_bound; lia. }
      destruct (Z.eq_dec q (Zpos Bm)) as [Hqe | Hqe]; [| lia].
      rewrite Hdown; [lia |].
      rewrite Z.mod_eq by lia. fold q. lia. }
    replace (ex + n) with e1 by lia.
    destruct m' as [|pm|pm] eqn:Em'; [| | lia].
    + (* underflow to zero *)
      cbn [Zdigits2 shr_record_of_loc]. rewrite shr_nop by (rewrite fexp32; lia).
      cbn [shr_m]. left. reflexivity.
    + cbn [Zdigits2 shr_record_of_loc]. rewrite fexp32.
      pose proof (digits2_pos_bounds pm) as Hd'.
      set (d' := Zpos (digits2_pos pm)) in *.
      destruct (Z.eq_dec (Zpos pm) (2 ^ 24)) as [Hov | Hov].
      * (* the rounding carried into a 25th bit *)
        assert (Hd25 : d' = 25).
        { apply digits2_pos_unique. rewrite Hov. cbn. lia. }
        assert (Hlt : e1 < Be).
        { destruct (Z.eq_dec e1 Be) as [HeB |]; [| lia].
          specialize (Htight HeB).
          assert (dB <= 24) by lia.
          assert (2 ^ dB <= 2 ^ 24) by (apply Z.pow_le_mono_r; lia). lia. }
        replace (Z.max (d' + e1 - 24) (-149) - e1) with 1 by lia.
        rewrite shr_spec by lia. cbn [shr_m]. rewrite Hov.
        change (2 ^ 24 / 2 ^ 1) with (Zpos 8388608). change (128 - 24) with 104.
        destruct (Z.leb_spec (e1 + 1) 104); [| lia].
        right. exists 8388608%positive, (e1 + 1).
        split; [reflexivity |]. split.
        -- apply bounded32. change (Zpos (digits2_pos 8388608)) with 24. lia.
        -- unfold Binary32.le_mag. specialize (HBnorm Hlt).
           destruct (Z.eq_dec (e1 + 1) Be); [right | left; lia].
           split; [assumption |]. cbn in HBnorm. lia.
      * assert (Hd24 : d' <= 24).
        { destruct (Z.le_gt_cases d' 24); [assumption | exfalso].
          assert (2 ^ 24 <= 2 ^ (d' - 1)) by (apply Z.pow_le_mono_r; lia). lia. }
        rewrite shr_nop by lia. cbn [shr_m]. change (128 - 24) with 104.
        destruct (Z.leb_spec e1 104); [| lia].
        right. exists pm, e1. split; [reflexivity |]. split.
        -- apply bounded32. fold d'. split; [| lia].
           destruct (Z.eq_dec e1 (-149)) as [-> | Hne]; [lia |].
           assert (d' = 24); [| lia].
           apply digits2_pos_unique. specialize (Hq23 ltac:(lia)). cbn in *. lia.
        -- unfold Binary32.le_mag. destruct (Z.eq_dec e1 Be) as [HeB | ?]; [right | left; lia].
           split; [assumption |]. now apply Htight.
Qed.

(** Aligning a mantissa on a smaller exponent multiplies it by a power of 2. *)
Lemma shl_align_fst (mx : positive) (ex ez : Z) :
  ez <= ex -> Zpos (fst (shl_align mx ex ez)) = Zpos mx * 2 ^ (ex - ez).
Proof.
  intros Hle. unfold shl_align.
  destruct (ez - ex) as [|d|d] eqn:Hd; cbn [fst].
  - replace (ex - ez) with 0 by lia. cbn. lia.
  - lia.
  - change (Pos.iter xO mx d) with (shift_pos d mx).
    replace (ex - ez) with (Zpos d) by lia.
    rewrite shift_pos_correct. change (Z.pow_pos 2 d) with (2 ^ Zpos d). lia.
Qed.

Lemma shl_align_snd (mx : positive) (ex ez : Z) :
  snd (shl_align mx ex ez) = Z.min ex ez.
Proof.
  unfold shl_align. destruct (ez - ex) as [|d|d] eqn:Hd; cbn [snd]; lia.
Qed.

Lemma digits2_pos_shift (mx : positive) (k : Z) (mz : positive) :
  0 <= k -> Zpos mz = Zpos mx * 2 ^ k ->
  Zpos (digits2_pos mz) = Zpos (digits2_pos mx) + k.
Proof.
  intros Hk Hz. apply digits2_pos_unique. rewrite Hz.
  pose proof (digits2_pos_bounds mx) as [Hlo Hhi].
  assert (0 < 2 ^ k) by (apply Z.pow_pos_nonneg; lia).
  replace (Zpos (digits2_pos mx) + k - 1) with (Zpos (digits2_pos mx) - 1 + k) by lia.
  rewrite !Z.pow_add_r by lia. nia.
Qed.

(** Rounding a positive dyadic [mx * 2^ex] that lies strictly below the
    midpoint above the binary32 number [Bm * 2^Be] gives at most that number. *)
Lemma binary_round_le (mx : positive) (ex : Z) (Bm : positive) (Be : Z) :
  bounded 24 128 Bm Be = true ->
  (forall lo, lo <= ex ->
     2 * (Zpos mx * 2 ^ (ex - lo)) < (2 * Zpos Bm + 1) * 2 ^ (Be - lo)) ->
  binary_round 24 128 false mx ex = S754_zero false
  \/ exists m' e',
       binary_round 24 128 false mx ex = S754_finite false m' e'
       /\ bounded 24 128 m' e' = true /\ Binary32.le_mag m' e' Bm Be.
Proof.
  intros HB Hx. unfold binary_round.
  destruct (shl_align mx ex (fexp 24 128 (Zpos (digits2_pos mx) + ex)))
    as [mz ez] eqn:Hsh.
  set (fe := fexp 24 128 (Zpos (digits2_pos mx) + ex)) in *.
  pose proof (shl_align_snd mx ex fe) as Hez. rewrite Hsh in Hez. cbn [snd] in Hez.
  destruct (Z.le_gt_cases fe ex) as [Hfe | Hfe].
  - pose proof (shl_align_fst mx ex fe Hfe) as Hmz. rewrite Hsh in Hmz. cbn [fst] in Hmz.
    assert (Hez' : ez = fe) by lia. clear Hez. subst ez.
    assert (Hdz : Zpos (digits2_pos mz) = Zpos (digits2_pos mx) + (ex - fe))
      by (apply digits2_pos_shift; [lia | exact Hmz]).
    apply binary_round_aux_le; [| exact HB |].
    + rewrite Hdz. replace (Zpos (digits2_pos mx) + (ex - fe) + fe)
        with (Zpos (digits2_pos mx) + ex) by lia. fold fe. lia.
    + rewrite Hmz. apply Hx. exact Hfe.
  - assert (Hsame : (mz, ez) = (mx, ex)).
    { rewrite <- Hsh. unfold shl_align.
      destruct (fe - ex) eqn:Hd; try reflexivity; lia. }
    injection Hsame as -> ->.
    apply binary_round_aux_le; [fold fe; lia | exact HB |].
    specialize (Hx ex ltac:(lia)). rewrite Z.sub_diag in Hx.
    change (2 ^ 0) with 1 in Hx. lia.
Qed.

Lemma nonneg_leb_spec x Bm Be :
  Binary32.nonneg_leb x Bm Be = true -> Binary32.nonneg_le x Bm Be.
Proof.
  destruct x as [s | s | | [|] m e]; cbn; try discriminate; [trivial |].
  intros Hb. apply andb_prop in Hb as [Hbd Hle]. split; [exact Hbd |].
  unfold Binary32.le_mag. apply orb_prop in Hle as [Hlt | Heq].
  - left. now apply Z.ltb_lt.
  - right. apply andb_prop in Heq as [He Hm].
    split; [now apply Z.eqb_eq | now apply Z.leb_le].
Qed.

Lemma round_result_nonneg_le (r : spec_float) Bm Be :
  r = S754_zero false
  \/ (exists m' e', r = S754_finite false m' e'
                    /\ bounded 24 128 m' e' = true /\ Binary32.le_mag m' e' Bm Be) ->
  Binary32.nonneg_le r Bm Be.
Proof.
  intros [-> | (m' & e' & -> & Hb & Hle)]; cbn; auto.
Qed.

Lemma bounded_mantissa m e :
  bounded 24 128 m e = true -> Zpos m < 2 ^ 24 /\ -149 <= e <= 104.
Proof.
  intros Hb. apply bounded32 in Hb as [He Hmax].
  pose proof (digits2_pos_bounds m) as [_ Hhi].
  assert (Zpos (digits2_pos m) <= 24) by lia.
  assert (2 ^ Zpos (digits2_pos m) <= 2 ^ 24) by (apply Z.pow_le_mono_r; lia).
  lia.
Qed.

(** The order on mantissa and exponent agrees with the order on values. *)
Lemma le_mag_value m e (Bm : positive) Be lo :
  bounded 24 128 m e = true -> 2 ^ 23 <= Zpos Bm -> Binary32.le_mag m e Bm Be ->
  lo <= e ->
  Zpos m * 2 ^ (e - lo) <= Zpos Bm * 2 ^ (Be - lo).
Proof.
  intros Hb HBm [Hlt | [-> Hm]] Hlo.
  - apply bounded_mantissa in Hb as [Hm _].
    assert (0 < 2 ^ (e - lo)) by (apply Z.pow_pos_nonneg; lia).
    assert (H1 : 2 ^ (24 + (e - lo)) <= 2 ^ (23 + (Be - lo)))
      by (apply Z.pow_le_mono_r; lia).
    rewrite !Z.pow_add_r in H1 by lia.
    assert (0 < 2 ^ (Be - lo)) by (apply Z.pow_pos_nonneg; lia).
    nia.
  - assert (0 < 2 ^ (Be - lo)) by (apply Z.pow_pos_nonneg; lia). nia.
Qed.

(** [(1.0f - emaAlpha) * b] for [b] at most 1023 = 16760832 * 2^-14: the
    exact product is below 15922790.5 * 2^-14. *)
Lemma mul_one_minus_alpha_le b :
  Binary32.nonneg_le b 16760832 (-14) ->
  Binary32.nonneg_le (SFmul 24 128 (S754_finite false 15938355 (-24)) b)
    15922790 (-14).
Proof.
  destruct b as [s | s | | [|] m e]; cbn [Binary32.nonneg_le]; try contradiction.
  - intros _. exact I.
  - intros [Hb Hle]. cbn [SFmul xorb].
    apply round_result_nonneg_le.
    pose proof (bounded_mantissa m e Hb) as [Hm He].
    pose proof (digits2_pos_bounds m) as [Dlo Dhi].
    pose proof (digits2_pos_bounds (15938355 * m)) as [Plo Phi].
    rewrite Pos2Z.inj_mul in Plo, Phi.
    set (dm := Zpos (digits2_pos m)) in *.
    set (dp := Zpos (digits2_pos (15938355 * m))) in *.
    assert (0 < dm) by (subst dm; lia).
    assert (Hdp : dm + 22 < dp).
    { apply (Z.pow_lt_mono_r_iff 2); [lia | subst dp; lia |].
      replace (dm + 22) with (23 + (dm - 1)) by lia.
      rewrite Z.pow_add_r by lia. nia. }
    apply binary_round_aux_le.
    + fold dp. rewrite fexp32. lia.
    + reflexivity.
    + rewrite Pos2Z.inj_mul.
      replace (-14 - (-24 + e)) with (10 - e) by lia.
      destruct Hle as [Hlt | [-> Hle]].
      * assert (2 ^ 25 <= 2 ^ (10 - e)) by (apply Z.pow_le_mono_r; lia). lia.
      * change (2 ^ (10 - -14)) with 16777216. lia.
Qed.

(** [emaAlpha * raw] for the 1024 sample values, by evaluation. *)
Lemma mul_alpha_le raw :
  0 <= raw <= 1023 ->
  Binary32.nonneg_le (SFmul 24 128 Binary32.lit_0_05 (Binary32.of_int raw)) 13408666 (-18).
Proof.
  intros Hraw. apply nonneg_leb_spec.
  assert (Hall : forallb (fun k => Binary32.nonneg_leb (SFmul 24 128 Binary32.lit_0_05 (Binary32.of_int (Z.of_nat k)))
                                      13408666 (-18)) (seq 0 1024) = true)
    by (vm_compute; reflexivity).
  rewrite forallb_forall in Hall.
  specialize (Hall (Z.to_nat raw)). rewrite Z2Nat.id in Hall by lia.
  apply Hall. apply in_seq. lia.
Qed.

(** The sum of the two products is at most 268173306 * 2^-18, below
    1023 = 268173312 * 2^-18, before it is rounded. *)
Lemma add_le p1 p2 :
  Binary32.nonneg_le p1 15922790 (-14) -> Binary32.nonneg_le p2 13408666 (-18) ->
  Binary32.nonneg_le (SFadd 24 128 p1 p2) 16760832 (-14).
Proof.
  destruct p1 as [s1 | s1 | | [|] m1 e1]; cbn [Binary32.nonneg_le]; try contradiction;
    destruct p2 as [s2 | s2 | | [|] m2 e2]; cbn [Binary32.nonneg_le]; try contradiction.
  - intros _ _. destruct s1, s2; exact I.
  - intros _ [Hb [Hlt | [-> Hm]]]; cbn [SFadd Binary32.nonneg_le];
      (split; [exact Hb |]); unfold Binary32.le_mag; lia.
  - intros [Hb [Hlt | [-> Hm]]] _; cbn [SFadd Binary32.nonneg_le];
      (split; [exact Hb |]); unfold Binary32.le_mag; lia.
  - intros [Hb1 Hle1] [Hb2 Hle2]. cbn [SFadd cond_Zopp].
    set (ez := Z.min e1 e2).
    pose proof (shl_align_fst m1 e1 ez ltac:(lia)) as HA.
    pose proof (shl_align_fst m2 e2 ez ltac:(lia)) as HB.
    set (a := fst (shl_align m1 e1 ez)) in *.
    set (b := fst (shl_align m2 e2 ez)) in *.
    rewrite Pos2Z.add_pos_pos. cbn [binary_normalize].
    apply round_result_nonneg_le. apply binary_round_le; [reflexivity |].
    intros lo Hlo. rewrite Pos2Z.inj_add, HA, HB.
    assert (He2 : e2 <= -18) by (destruct Hle2 as [? | [-> _]]; lia).
    pose proof (le_mag_value m1 e1 15922790 (-14) lo Hb1 ltac:(lia) Hle1 ltac:(lia)) as V1.
    pose proof (le_mag_value m2 e2 13408666 (-18) lo Hb2 ltac:(lia) Hle2 ltac:(lia)) as V2.
    assert (HP : 0 < 2 ^ (-18 - lo)) by (apply Z.pow_pos_nonneg; lia).
    replace (-14 - lo) with (4 + (-18 - lo)) in * by lia.
    rewrite Z.pow_add_r in * by lia. change (2 ^ 4) with 16 in *.
    assert (E1 : Zpos m1 * 2 ^ (e1 - ez) * 2 ^ (ez - lo) = Zpos m1 * 2 ^ (e1 - lo)).
    { rewrite <- Z.mul_assoc, <- Z.pow_add_r by lia. do 2 f_equal. lia. }
    assert (E2 : Zpos m2 * 2 ^ (e2 - ez) * 2 ^ (ez - lo) = Zpos m2 * 2 ^ (e2 - lo)).
    { rewrite <- Z.mul_assoc, <- Z.pow_add_r by lia. do 2 f_equal. lia. }
    nia.
Qed.

(** [SFleb] on positive numbers is the order on exponents, then mantissas. *)
Lemma SFleb_positive m e Bm Be :
  SFleb (S754_finite false m e) (S754_finite false Bm Be) = true
  <-> Binary32.le_mag m e Bm Be.
Proof.
  unfold SFleb, Binary32.le_mag. cbn [SFcompare].
  destruct (Z.compare_spec e Be) as [-> | Hlt | Hgt].
  - rewrite Pos.compare_cont_spec. cbn [Pos.switch_Eq].
    destruct (Pos.compare_spec m Bm) as [-> | Hlt | Hgt].
    + intuition lia.
    + intuition lia.
    + split; [discriminate | intros [? | [_ ?]]; lia].
  - intuition lia.
  - split; [discriminate | intros [? | [? _]]; lia].
Qed.

Lemma in_sample_range_iff x :
  in_sample_range x <-> Binary32.nonneg_le x 16760832 (-14).
Proof.
  unfold in_sample_range.
  change (Binary32.of_int 0) with (S754_zero false).
  change (Binary32.of_int MAX_SAMPLE) with (S754_finite false 16760832 (-14)).
  destruct x as [s | [|] | | [|] m e]; cbn [Binary32.nonneg_le valid_binary].
  - split; auto.
  - split; [intros (_ & H1 & _); discriminate H1 | contradiction].
  - split; [intros (_ & _ & H2); discriminate H2 | contradiction].
  - split; [intros (_ & H1 & _); discriminate H1 | contradiction].
  - split; [intros (_ & H1 & _); discriminate H1 | contradiction].
  - rewrite SFleb_positive. split; [intros (? & _ & ?) | intros [? ?]]; auto.
Qed.

(** [1.0f - emaAlpha] as the compiler folds it. *)
Lemma one_minus_alpha_value :
  f_sub f_one emaAlpha = S754_finite false 15938355 (-24).
Proof. reflexivity. Qed.

(** The update of line 154 keeps the baseline a number within
    [0, MAX_SAMPLE]. *)
Lemma ema_update_in_range (b : spec_float) (raw : Z) :
  in_sample_range b -> 0 <= raw <= MAX_SAMPLE ->
  in_sample_range (ema_update b raw)
  /\ Binary32.is_finite (ema_update b raw) = true.
Proof.
  intros Hb Hraw. apply in_sample_range_iff in Hb. unfold MAX_SAMPLE in Hraw.
  assert (Hr : Binary32.nonneg_le (ema_update b raw) 16760832 (-14)).
  { unfold ema_update. rewrite one_minus_alpha_value.
    apply add_le; [now apply mul_one_minus_alpha_le | now apply mul_alpha_le]. }
  split; [now apply in_sample_range_iff |].
  destruct (ema_update b raw) as [s | s | | [|] m e]; cbn in Hr |- *;
    try contradiction; reflexivity.
Qed.

(** ** The sampling loop *)

Section LoopProperties.

Context {F : Type} `{FloatArith F}.
Implicit Types s : state F.

(** The periodic refresh touches [lastRefresh] only. *)
Lemma refresh_spec now s :
  refresh now s
  = if usub now (lastRefresh s) >? 500
    then (set_lastRefresh now s, drawUI (set_lastRefresh now s))
    else (s, []).
Proof. reflexivity. Qed.

(** An iteration is the baseline update, the detection block, the edge flag
    and the refresh, in this order. *)
Lemma loop_with_unfold refr raw now s :
  loop_with refr raw now s
  = match detect_with refr (is_above raw s) now
            (set_ema (ema_update (ema s) raw) s) with
    | Some (s2, out1) =>
        let r := refresh now (set_prevAbove (is_above raw s) s2) in
        Some (r.1, out1 ++ r.2)
    | None => None
    end.
Proof.
  unfold loop_with, is_above. cbn [ema set_ema].
  destruct (detect_with _ _ _ _) as [[s2 out1]|]; cbn; [| reflexivity].
  now destruct (refresh _ _).
Qed.

(** The detection block when no beat is detected: nothing happens. *)
Lemma detect_with_idle refr isAbove now s :
  isAbove && negb (prevAbove s) && (usub now (lastBeatMs s) >? refr) = false ->
  detect_with refr isAbove now s = Some (s, []).
Proof.
  unfold detect_with. intros Hc.
  destruct (isAbove && negb (prevAbove s)); [| reflexivity].
  cbn in Hc. now rewrite Hc.
Qed.

Lemma detect_with_beat refr isAbove now s :
  isAbove && negb (prevAbove s) && (usub now (lastBeatMs s) >? refr) = true ->
  detect_with refr isAbove now s = on_beat now s.
Proof.
  unfold detect_with. intros Hc.
  apply andb_prop in Hc as [-> ->]. reflexivity.
Qed.

(** The three ways through the body of a detected beat. *)
Lemma on_beat_first now s :
  lastBeatMs s = 0 -> on_beat now s = Some (set_lastBeatMs now s, []).
Proof. unfold on_beat. intros ->. reflexivity. Qed.

Lemma on_beat_rejected now s c :
  lastBeatMs s <> 0 ->
  bpm_of_interval (usub now (lastBeatMs s)) = Some c -> accept c = false ->
  on_beat now s = Some (set_lastBeatMs now s, []).
Proof.
  unfold on_beat. intros Hz Hc Ha.
  destruct (Z.eqb_spec (lastBeatMs s) 0); [contradiction |].
  cbn. rewrite Hc. cbn. now rewrite Ha.
Qed.

Lemma on_beat_accepted now s c :
  lastBeatMs s <> 0 ->
  bpm_of_interval (usub now (lastBeatMs s)) = Some c -> accept c = true ->
  on_beat now s
  = Some (set_lastBeatMs now (accept_beat c s).1, (accept_beat c s).2).
Proof.
  unfold on_beat. intros Hz Hc Ha.
  destruct (Z.eqb_spec (lastBeatMs s) 0); [contradiction |].
  cbn. rewrite Hc. cbn. now rewrite Ha.
Qed.

Lemma accept_spec c : accept c = true <-> 60 <= c <= 130.
Proof. unfold accept. rewrite andb_true_iff, Z.geb_le, Z.leb_le. lia. Qed.

Lemma accept_false c : accept c = false <-> ~ 60 <= c <= 130.
Proof. rewrite <- accept_spec. now destruct (accept c). Qed.

(** The conversion on the intervals that reach it. *)
Lemma bpm_of_interval_spec rr :
  2 <= rr ->
  bpm_of_interval rr = Some (60000 / rr) /\ 0 <= 60000 / rr <= 30000.
Proof.
  intros Hrr.
  assert (Hq : 0 <= 60000 / rr <= 30000).
  { split; [apply Z.div_pos; lia |].
    apply Z.div_le_upper_bound; lia. }
  split; [| exact Hq].
  unfold bpm_of_interval. rewrite udiv_pos by lia. cbn.
  now rewrite to_int_small by lia.
Qed.

(** What the guards of an iteration say about the path predicates. *)
Lemma beat_detected_guard raw now s :
  beat_detected raw now s
  = is_above raw s
    && negb (prevAbove (set_ema (ema_update (ema s) raw) s))
    && (usub now (lastBeatMs (set_ema (ema_update (ema s) raw) s)) >? refractoryMs).
Proof. reflexivity. Qed.

Lemma candidate_inv raw now s c :
  candidate raw now s = Some c ->
  beat_detected raw now s = true /\ lastBeatMs s <> 0
  /\ refractoryMs < elapsed now s
  /\ bpm_of_interval (elapsed now s) = Some c
  /\ c = 60000 / elapsed now s /\ 0 <= c < 240.
Proof.
  unfold candidate. intros Hc.
  destruct (beat_detected raw now s) eqn:Hb; [| discriminate Hc].
  destruct (Z.eqb_spec (lastBeatMs s) 0) as [|Hz]; [discriminate Hc |].
  cbn in Hc. unfold beat_detected in Hb. apply andb_prop in Hb as [_ Hr].
  apply Z.gtb_lt in Hr. unfold refractoryMs in *.
  destruct (bpm_of_interval_spec (elapsed now s)) as [Hq _]; [lia |].
  rewrite Hq in Hc. injection Hc as <-.
  repeat split; try assumption; try reflexivity.
  - apply Z.div_pos; lia.
  - apply Z.div_lt_upper_bound; lia.
Qed.

(** The result of an iteration along each path. *)
Lemma loop_idle raw now s :
  beat_detected raw now s = false ->
  loop raw now s = finish raw now (set_ema (ema_update (ema s) raw) s) [] s.
Proof.
  intros Hb. unfold loop. rewrite loop_with_unfold.
  rewrite detect_with_idle by (rewrite <- beat_detected_guard; exact Hb).
  reflexivity.
Qed.

Lemma loop_first raw now s :
  beat_detected raw now s = true -> lastBeatMs s = 0 ->
  loop raw now s
  = finish raw now (set_lastBeatMs now (set_ema (ema_update (ema s) raw) s)) [] s.
Proof.
  intros Hb Hz. unfold loop. rewrite loop_with_unfold.
  rewrite detect_with_beat by (rewrite <- beat_detected_guard; exact Hb).
  rewrite on_beat_first by exact Hz. reflexivity.
Qed.

Lemma loop_rejected raw now s c :
  candidate raw now s = Some c -> accept c = false ->
  loop raw now s
  = finish raw now (set_lastBeatMs now (set_ema (ema_update (ema s) raw) s)) [] s.
Proof.
  intros Hc Ha. apply candidate_inv in Hc as (Hb & Hz & _ & Hq & _).
  unfold loop. rewrite loop_with_unfold.
  rewrite detect_with_beat by (rewrite <- beat_detected_guard; exact Hb).
  rewrite (on_beat_rejected _ _ c) by assumption. reflexivity.
Qed.

Lemma loop_accepted raw now s c :
  candidate raw now s = Some c -> accept c = true ->
  loop raw now s
  = let sa := accept_beat c (set_ema (ema_update (ema s) raw) s) in
    finish raw now (set_lastBeatMs now sa.1) sa.2 s.
Proof.
  intros Hc Ha. apply candidate_inv in Hc as (Hb & Hz & _ & Hq & _).
  unfold loop. rewrite loop_with_unfold.
  rewrite detect_with_beat by (rewrite <- beat_detected_guard; exact Hb).
  rewrite (on_beat_accepted _ _ c) by assumption. reflexivity.
Qed.

(** The paths are exhaustive. *)
Lemma loop_path raw now s :
  beat_detected raw now s = false
  \/ (beat_detected raw now s = true /\ lastBeatMs s = 0)
  \/ (exists c, candidate raw now s = Some c).
Proof.
  destruct (beat_detected raw now s) eqn:Hb; [right | now left].
  destruct (Z.eq_dec (lastBeatMs s) 0) as [Hz | Hz]; [now left | right].
  unfold candidate. rewrite Hb.
  destruct (Z.eqb_spec (lastBeatMs s) 0); [contradiction |]. cbn.
  unfold beat_detected in Hb. apply andb_prop in Hb as [_ Hr].
  apply Z.gtb_lt in Hr. unfold refractoryMs in Hr.
  destruct (bpm_of_interval_spec (elapsed now s)) as [Hq _]; [lia |].
  eauto.
Qed.

(** Fields of the state after the closing steps of an iteration. *)
Lemma finish_fields raw now s2 out1 s :
  exists s',
    finish raw now s2 out1 s
    = Some (s', out1 ++ (if usub now (lastRefresh s2) >? 500 then drawUI s' else []))
    /\ ema s' = ema s2 /\ prevAbove s' = is_above raw s
    /\ lastBeatMs s' = lastBeatMs s2 /\ bpm s' = bpm s2
    /\ bpmDisplayed s' = bpmDisplayed s2 /\ graphBuf s' = graphBuf s2
    /\ lastRefresh s'
       = (if usub now (lastRefresh s2) >? 500 then now else lastRefresh s2).
Proof.
  unfold finish. rewrite refresh_spec. cbn [lastRefresh set_prevAbove].
  destruct (usub now (lastRefresh s2) >? 500); eexists; cbn; repeat split.
Qed.

(** C5: the conversion never divides by zero.  For a refractory period
    greater than 0 no iteration faults (the only fault of the model is the
    division by zero of line 168); whenever the division is reached its
    divisor, the interval, is strictly positive; and a zero interval leaves
    the detection block without a candidate and without any effect. *)
Theorem no_division_by_zero (refr : Z) :
  0 < refr ->
  (forall raw now s, exists s' out, loop_with refr raw now s = Some (s', out))
  /\ (forall isAbove now s,
        isAbove && negb (prevAbove s) && (usub now (lastBeatMs s) >? refr)
          && negb (lastBeatMs s =? 0) = true ->
        0 < usub now (lastBeatMs s)
        /\ udiv 60000 (usub now (lastBeatMs s))
           = Some (60000 / usub now (lastBeatMs s)))
  /\ (forall isAbove now s,
        usub now (lastBeatMs s) = 0 ->
        detect_with refr isAbove now s = Some (s, [])).
Proof.
  intros Hrefr.
  assert (Hdiv : forall isAbove now s,
             isAbove && negb (prevAbove s) && (usub now (lastBeatMs s) >? refr) = true ->
             0 < usub now (lastBeatMs s)).
  { intros a now s Hg. apply andb_prop in Hg as [_ Hr].
    apply Z.gtb_lt in Hr. lia. }
  split; [| split].
  - intros raw now s. rewrite loop_with_unfold.
    set (s1 := set_ema (ema_update (ema s) raw) s).
    assert (Hd : exists s2 out1,
               detect_with refr (is_above raw s) now s1 = Some (s2, out1)).
    { destruct (is_above raw s && negb (prevAbove s1)
                && (usub now (lastBeatMs s1) >? refr)) eqn:Hg.
      - rewrite detect_with_beat by exact Hg.
        apply Hdiv in Hg. unfold on_beat, bpm_of_interval.
        destruct (negb (lastBeatMs s1 =? 0)); cbn; [| eauto].
        rewrite udiv_pos by exact Hg. cbn.
        destruct (accept _); cbn; eauto.
      - rewrite detect_with_idle by exact Hg. eauto. }
    destruct Hd as (s2 & out1 & ->). cbn. eauto.
  - intros a now s Hg. apply andb_prop in Hg as [Hg _].
    apply Hdiv in Hg. split; [exact Hg | now apply udiv_pos].
  - intros a now s Hz. apply detect_with_idle.
    rewrite Hz. destruct (Z.gtb_spec 0 refr); [lia |].
    now rewrite andb_false_r.
Qed.

(** Without the refractory guard in front of it, the body of a detected
    beat does divide by zero on a zero interval. *)
Remark on_beat_needs_guard now s :
  lastBeatMs s <> 0 -> usub now (lastBeatMs s) = 0 -> on_beat now s = None.
Proof.
  intros Hz H0. unfold on_beat.
  destruct (Z.eqb_spec (lastBeatMs s) 0); [contradiction |]. cbn.
  now rewrite H0.
Qed.

(** C6: the conversion is 60000 divided by the interval in milliseconds with
    the quotient truncated: the candidate [q] is the integer with
    [q * rr <= 60000 < (q + 1) * rr]; 500 ms gives 120, 1000 ms gives 60 and
    461 ms gives 130. *)
Theorem bpm_conversion_truncates :
  (forall rr, 2 <= rr ->
     exists q, bpm_of_interval rr = Some q
               /\ q = 60000 / rr /\ q * rr <= 60000 < (q + 1) * rr)
  /\ (forall raw now s c,
        candidate raw now s = Some c ->
        c = 60000 / elapsed now s
        /\ c * elapsed now s <= 60000 < (c + 1) * elapsed now s)
  /\ bpm_of_interval 500 = Some 120
  /\ bpm_of_interval 1000 = Some 60
  /\ bpm_of_interval 461 = Some 130.
Proof.
  assert (Hfloor : forall rr, 0 < rr ->
             60000 / rr * rr <= 60000 < (60000 / rr + 1) * rr).
  { intros rr Hrr. pose proof (Z.div_mod 60000 rr ltac:(lia)) as Hdm.
    pose proof (Z.mod_pos_bound 60000 rr Hrr). nia. }
  split; [| split; [| repeat split]].
  - intros rr Hrr. exists (60000 / rr).
    split; [apply bpm_of_interval_spec; exact Hrr |].
    split; [reflexivity | apply Hfloor; lia].
  - intros raw now s c Hc.
    apply candidate_inv in Hc as (_ & _ & Hr & _ & -> & _).
    split; [reflexivity |]. apply Hfloor. unfold refractoryMs in Hr. lia.
Qed.

(** C1: the range test accepts a candidate exactly when it lies in
    [60, 130], both ends included (59 and 131 are rejected, 60 and 130
    accepted).  In an iteration that computes the candidate [c], an accepted
    [c] becomes the persisted and the displayed BPM, is pushed on the graph
    and redrawn at once; a rejected [c] leaves all three as they were. *)
Theorem range_validation_inclusive :
  (forall c, accept c = true <-> 60 <= c <= 130)
  /\ accept 59 = false /\ accept 60 = true
  /\ accept 130 = true /\ accept 131 = false
  /\ (forall raw now s c,
        candidate raw now s = Some c ->
        exists s' out,
          loop raw now s = Some (s', out)
          /\ (60 <= c <= 130 ->
              bpm s' = c /\ bpmDisplayed s' = c
              /\ graphBuf s' = pushGraph (graphBuf s) c
              /\ exists (sd : state F) rest,
                  out = drawUI sd ++ rest
                  /\ bpmDisplayed sd = c
                  /\ graphBuf sd = pushGraph (graphBuf s) c)
          /\ (~ 60 <= c <= 130 ->
              bpm s' = bpm s /\ bpmDisplayed s' = bpmDisplayed s
              /\ graphBuf s' = graphBuf s)).
Proof.
  split; [exact accept_spec |].
  do 4 (split; [reflexivity |]).
  intros raw now s c Hc.
  destruct (accept c) eqn:Ha.
  - rewrite (loop_accepted _ _ _ _ Hc Ha). cbv zeta.
    set (s1 := set_ema (ema_update (ema s) raw) s).
    destruct (finish_fields raw now (set_lastBeatMs now (accept_beat c s1).1)
                (accept_beat c s1).2 s)
      as (s' & -> & _ & _ & _ & Hbpm & Hdisp & Hbuf & _).
    eexists _, _. split; [reflexivity |].
    split; [intros _ | intros Hn; apply accept_spec in Ha; contradiction].
    rewrite Hbpm, Hdisp, Hbuf. cbn.
    repeat split. eexists _, _. split; [reflexivity |]. split; reflexivity.
  - rewrite (loop_rejected _ _ _ _ Hc Ha).
    destruct (finish_fields raw now
                (set_lastBeatMs now (set_ema (ema_update (ema s) raw) s)) [] s)
      as (s' & -> & _ & _ & _ & Hbpm & Hdisp & Hbuf & _).
    eexists _, _. split; [reflexivity |].
    split; [intros Hy; apply accept_false in Ha; contradiction | intros _].
    rewrite Hbpm, Hdisp, Hbuf. repeat split.
Qed.

(** C4 (amended): a rising-edge candidate met while the last-beat time stamp
    still holds its 0 sentinel computes no interval and no BPM, and leaves
    the BPM state and the trend buffer as they were; it sets the time stamp
    to the current time when that time is more than the refractory period
    after the clock's zero, and is discarded, the time stamp staying 0,
    otherwise. *)
Theorem first_candidate_sets_timestamp raw now s :
  0 <= now < 2 ^ 32 ->
  rising_edge raw s = true -> lastBeatMs s = 0 ->
  exists s' out,
    loop raw now s = Some (s', out)
    /\ candidate raw now s = None
    /\ bpm s' = bpm s /\ bpmDisplayed s' = bpmDisplayed s
    /\ graphBuf s' = graphBuf s
    /\ lastBeatMs s' = (if now >? refractoryMs then now else 0).
Proof.
  intros Hnow Hedge Hz.
  assert (Hel : elapsed now s = now).
  { unfold elapsed, usub, ulong. rewrite Hz, Z.sub_0_r. now apply Z.mod_small. }
  assert (Hcand : candidate raw now s = None).
  { unfold candidate. rewrite Hz. cbn. now rewrite andb_false_r. }
  assert (Hb : beat_detected raw now s = (now >? refractoryMs)).
  { unfold beat_detected. now rewrite Hedge, Hel. }
  destruct (now >? refractoryMs) eqn:Hgt.
  - rewrite (loop_first _ _ _ Hb Hz).
    destruct (finish_fields raw now
                (set_lastBeatMs now (set_ema (ema_update (ema s) raw) s)) [] s)
      as (s' & -> & _ & _ & Hlast & Hbpm & Hdisp & Hbuf & _).
    eexists _, _. split; [reflexivity |]. cbn in *. repeat split; assumption.
  - rewrite (loop_idle _ _ _ Hb).
    destruct (finish_fields raw now (set_ema (ema_update (ema s) raw) s) [] s)
      as (s' & -> & _ & _ & Hlast & Hbpm & Hdisp & Hbuf & _).
    eexists _, _. split; [reflexivity |]. cbn in *.
    rewrite Hlast, Hz. repeat split; assumption.
Qed.

(** *** Summary of an iteration *)

Lemma set_lastBeatMs_fields now s :
  lastBeatMs (set_lastBeatMs now s) = now
  /\ bpm (set_lastBeatMs now s) = bpm s
  /\ bpmDisplayed (set_lastBeatMs now s) = bpmDisplayed s
  /\ graphBuf (set_lastBeatMs now s) = graphBuf s
  /\ lastRefresh (set_lastBeatMs now s) = lastRefresh s.
Proof. repeat split. Qed.

Lemma accept_beat_fields c s :
  (accept_beat c s).2 = drawUI (accept_beat c s).1
  /\ bpm (accept_beat c s).1 = c
  /\ bpmDisplayed (accept_beat c s).1 = c
  /\ graphBuf (accept_beat c s).1 = pushGraph (graphBuf s) c
  /\ lastBeatMs (accept_beat c s).1 = lastBeatMs s
  /\ lastRefresh (accept_beat c s).1 = lastRefresh s.
Proof. unfold accept_beat. cbn [fst snd]. repeat split. Qed.

(** Every iteration ends; its output is the redraw of an accepted beat, if
    any, followed by the periodic redraw, if due. *)
Lemma loop_summary raw now s :
  exists (s' sd : state F) pre,
    loop raw now s
    = Some (s', pre ++ (if usub now (lastRefresh s) >? 500 then drawUI s' else []))
    /\ bpmDisplayed sd = bpmDisplayed s'
    /\ lastBeatMs s' = (if beat_detected raw now s then now else lastBeatMs s)
    /\ (if bpm_accepted raw now s
        then exists c, candidate raw now s = Some c /\ 60 <= c <= 130
                       /\ bpm s' = c /\ bpmDisplayed s' = c
                       /\ graphBuf s' = pushGraph (graphBuf s) c
                       /\ pre = drawUI sd
        else bpm s' = bpm s /\ bpmDisplayed s' = bpmDisplayed s
             /\ graphBuf s' = graphBuf s /\ pre = []).
Proof.
  destruct (loop_path raw now s) as [Hb | [[Hb Hz] | [c Hc]]].
  - rewrite (loop_idle _ _ _ Hb).
    destruct (finish_fields raw now (set_ema (ema_update (ema s) raw) s) [] s)
      as (s' & -> & _ & _ & Hlast & Hbpm & Hdisp & Hbuf & _).
    exists s', s', []. split; [reflexivity |]. split; [reflexivity |].
    unfold bpm_accepted, candidate. rewrite Hb. cbn in *. repeat split; assumption.
  - rewrite (loop_first _ _ _ Hb Hz).
    destruct (finish_fields raw now
                (set_lastBeatMs now (set_ema (ema_update (ema s) raw) s)) [] s)
      as (s' & -> & _ & _ & Hlast & Hbpm & Hdisp & Hbuf & _).
    exists s', s', []. split; [reflexivity |]. split; [reflexivity |].
    unfold bpm_accepted, candidate. rewrite Hb, Hz. cbn in *.
    repeat split; assumption.
  - pose proof (candidate_inv _ _ _ _ Hc) as (Hb & _).
    unfold bpm_accepted. rewrite Hc, Hb.
    destruct (accept c) eqn:Ha.
    + rewrite (loop_accepted _ _ _ _ Hc Ha). cbv zeta.
      set (s1 := set_ema (ema_update (ema s) raw) s).
      destruct (accept_beat_fields c s1) as (Hout & Ab & Ad & Ag & _ & Ar).
      destruct (finish_fields raw now (set_lastBeatMs now (accept_beat c s1).1)
                  (accept_beat c s1).2 s)
        as (s' & -> & _ & _ & Hlast & Hbpm & Hdisp & Hbuf & _).
      destruct (set_lastBeatMs_fields now (accept_beat c s1).1)
        as (_ & Lb & Ld & Lg & Lr).
      rewrite Lr, Ar. rewrite Lb, Ab in Hbpm. rewrite Ld, Ad in Hdisp.
      rewrite Lg, Ag in Hbuf.
      exists s', (accept_beat c s1).1, (accept_beat c s1).2.
      split; [reflexivity |].
      split; [now rewrite Hdisp, Ad |]. split; [exact Hlast |].
      exists c. apply accept_spec in Ha.
      split; [reflexivity |]. split; [exact Ha |].
      split; [exact Hbpm |]. split; [exact Hdisp |].
      split; [exact Hbuf | exact Hout].
    + rewrite (loop_rejected _ _ _ _ Hc Ha).
      destruct (finish_fields raw now
                  (set_lastBeatMs now (set_ema (ema_update (ema s) raw) s)) [] s)
        as (s' & -> & _ & _ & Hlast & Hbpm & Hdisp & Hbuf & _).
      exists s', s', []. split; [reflexivity |]. split; [reflexivity |].
      cbn in *. repeat split; assumption.
Qed.

(** No beat is detected, and nothing but the periodic refresh happens, while
    the clock is within [refractoryMs] of the time stamp. *)
Lemma loop_in_window raw now s s' out :
  elapsed now s <= refractoryMs ->
  loop raw now s = Some (s', out) ->
  beat_detected raw now s = false /\ candidate raw now s = None
  /\ lastBeatMs s' = lastBeatMs s /\ bpm s' = bpm s
  /\ bpmDisplayed s' = bpmDisplayed s /\ graphBuf s' = graphBuf s.
Proof.
  intros Hw Hl.
  assert (Hb : beat_detected raw now s = false).
  { unfold beat_detected. destruct (Z.gtb_spec (elapsed now s) refractoryMs); [lia |].
    apply andb_false_r. }
  assert (Hc : candidate raw now s = None) by (unfold candidate; now rewrite Hb).
  destruct (loop_summary raw now s) as (s1 & sd & pre & Hl' & _ & Hlast & Hacc).
  rewrite Hl in Hl'. injection Hl' as -> _.
  unfold bpm_accepted in Hacc. rewrite Hc in Hacc. rewrite Hb in Hlast.
  destruct Hacc as (? & ? & ? & _). repeat split; assumption.
Qed.

Lemma run_in_window (t1 : Z) (mid : list (Z * Z)) :
  forall s s' out,
    lastBeatMs s = t1 ->
    Forall (fun i => usub i.2 t1 < refractoryMs) mid ->
    run mid s = Some (s', out) ->
    lastBeatMs s' = t1 /\ bpm s' = bpm s
    /\ bpmDisplayed s' = bpmDisplayed s /\ graphBuf s' = graphBuf s.
Proof.
  induction mid as [|[raw now] mid IH]; intros s s' out Ht Hall Hrun.
  - cbn in Hrun. injection Hrun as <- _. repeat split. exact Ht.
  - apply Forall_cons in Hall as [Hnow Hall]. cbn [snd] in Hnow.
    cbn [run] in Hrun.
    destruct (loop raw now s) as [[s1 o1]|] eqn:Hl; [| discriminate Hrun].
    cbn in Hrun.
    destruct (run mid s1) as [[s2 o2]|] eqn:Hr; [| discriminate Hrun].
    cbn in Hrun. injection Hrun as <- _.
    apply loop_in_window in Hl as (_ & _ & Hlast & Hbpm & Hdisp & Hbuf);
      [| unfold elapsed; rewrite Ht; lia].
    destruct (IH s1 s2 o2) as (? & ? & ? & ?); [congruence | assumption | assumption |].
    repeat split; congruence.
Qed.

(** C3 (amended): a candidate is promoted to an accepted beat, and updates
    the last-beat time stamp, only when the time since the previous accepted
    beat strictly exceeds the refractory period (250 ms); so of two
    rising-edge candidates less than the refractory period apart, the first
    of which is accepted, exactly one updates the time stamp: the second is
    discarded, is not promoted and leaves the time stamp on the first. *)
Theorem refractory_enforcement :
  refractoryMs = 250
  /\ (forall raw now s s' out,
        loop raw now s = Some (s', out) ->
        lastBeatMs s' = (if beat_detected raw now s then now else lastBeatMs s)
        /\ (beat_detected raw now s = true -> refractoryMs < elapsed now s)
        /\ (rising_edge raw s = true -> elapsed now s <= refractoryMs ->
            beat_detected raw now s = false))
  /\ (forall raw1 t1 s0 s1 out1 mid s1' outm raw2 t2,
        beat_detected raw1 t1 s0 = true ->
        loop raw1 t1 s0 = Some (s1, out1) ->
        Forall (fun i => usub i.2 t1 < refractoryMs) mid ->
        run mid s1 = Some (s1', outm) ->
        rising_edge raw2 s1' = true ->
        usub t2 t1 < refractoryMs ->
        exists s2 out2,
          loop raw2 t2 s1' = Some (s2, out2)
          /\ lastBeatMs s1 = t1
          /\ beat_detected raw2 t2 s1' = false
          /\ candidate raw2 t2 s1' = None
          /\ lastBeatMs s2 = t1
          /\ bpm s2 = bpm s1' /\ bpmDisplayed s2 = bpmDisplayed s1'
          /\ graphBuf s2 = graphBuf s1').
Proof.
  split; [reflexivity |]. split.
  - intros raw now s s' out Hl.
    destruct (loop_summary raw now s) as (s1 & sd & pre & Hl' & _ & Hlast & _).
    rewrite Hl in Hl'. injection Hl' as -> _.
    split; [exact Hlast |]. unfold beat_detected. split.
    + intros Hb. apply andb_prop in Hb as [_ Hr]. now apply Z.gtb_lt in Hr.
    + intros -> Hw. destruct (Z.gtb_spec (elapsed now s) refractoryMs); [lia | reflexivity].
  - intros raw1 t1 s0 s1 out1 mid s1' outm raw2 t2 Hb1 Hl1 Hmid Hrun Hedge Ht2.
    assert (H1 : lastBeatMs s1 = t1).
    { destruct (loop_summary raw1 t1 s0) as (sx & sd & pre & Hl' & _ & Hlast & _).
      rewrite Hl1 in Hl'. injection Hl' as -> _. now rewrite Hb1 in Hlast. }
    destruct (run_in_window t1 mid s1 s1' outm H1 Hmid Hrun) as (H1' & _).
    destruct (loop_summary raw2 t2 s1') as (s2 & sd & pre & Hl2 & _).
    eexists _, _. split; [exact Hl2 |]. split; [exact H1 |].
    destruct (loop_in_window raw2 t2 s1' _ _ ltac:(unfold elapsed; rewrite H1'; lia) Hl2)
      as (? & ? & ? & ? & ? & ?).
    repeat split; congruence.
Qed.

(** *** What a frame shows *)

Lemma bpm_text_cases s :
  (60 <= bpmDisplayed s <= 130 /\ bpm_text s = PrintInt (bpmDisplayed s))
  \/ (~ 60 <= bpmDisplayed s <= 130 /\ bpm_text s = PrintStr "--").
Proof.
  unfold bpm_text.
  destruct (Z.geb_spec (bpmDisplayed s) 60), (Z.leb_spec (bpmDisplayed s) 130);
    cbn; [left | right | right | right]; split; (lia || reflexivity).
Qed.

Lemma drawUI_text s (d : draw_cmd) :
  In d (drawUI s) ->
  (forall n, d = PrintInt n -> n = bpmDisplayed s /\ 60 <= n <= 130)
  /\ (d = PrintStr "--" -> ~ 60 <= bpmDisplayed s <= 130).
Proof.
  unfold drawUI. cbv zeta. intros Hin.
  apply in_app_or in Hin as [Hin | Hin].
  - cbn [In] in Hin.
    repeat (destruct Hin as [Hin | Hin]); try contradiction;
      try (subst d; split; [intros ? [=] | intros [=]]; fail).
    destruct (bpm_text_cases s) as [[Hr Ht] | [Hr Ht]]; rewrite Ht in Hin; subst d.
    + split; [intros n [= <-]; now split | intros [=]].
    + split; [intros n [=] | intros _; exact Hr].
  - apply in_app_or in Hin as [Hin | Hin].
    + apply in_map_iff in Hin as (x & <- & _).
      split; [intros ? [=] | intros [=]].
    + destruct Hin as [<- | []]. split; [intros ? [=] | intros [=]].
Qed.

Lemma bpm_text_in_drawUI s : In (bpm_text s) (drawUI s).
Proof. unfold drawUI. cbv zeta. apply in_or_app. left. cbn [In]. tauto. Qed.

(** A frame shows the placeholder and no number while no BPM is displayed,
    and the displayed number, without the placeholder, afterwards. *)
Lemma frame_of_unset s :
  bpmDisplayed s = 0 ->
  In (PrintStr "--") (drawUI s) /\ forall n, ~ In (PrintInt n) (drawUI s).
Proof.
  intros Hz. split.
  - destruct (bpm_text_cases s) as [[Hr _] | [_ Ht]]; [lia |].
    rewrite <- Ht. apply bpm_text_in_drawUI.
  - intros n Hin. destruct (drawUI_text s _ Hin) as [Hp _].
    destruct (Hp n eq_refl) as [-> Hr]. lia.
Qed.

Lemma frame_of_shown s :
  60 <= bpmDisplayed s <= 130 ->
  In (PrintInt (bpmDisplayed s)) (drawUI s) /\ ~ In (PrintStr "--") (drawUI s).
Proof.
  intros Hs. split.
  - destruct (bpm_text_cases s) as [[_ Ht] | [Hn _]]; [| contradiction].
    rewrite <- Ht. apply bpm_text_in_drawUI.
  - intros Hin. destruct (drawUI_text s _ Hin) as [_ Hd]. now apply Hd.
Qed.

Lemma banner_text :
  ~ In (PrintStr "--") banner /\ forall n, ~ In (PrintInt n) banner.
Proof.
  split; [| intros n]; intros Hin;
    repeat (destruct Hin as [Hin | Hin]; [discriminate Hin |]); exact Hin.
Qed.

(** A frame depends on the displayed BPM and on the graph buffer only. *)
Lemma drawUI_ext s1 s2 :
  bpmDisplayed s1 = bpmDisplayed s2 -> graphBuf s1 = graphBuf s2 ->
  drawUI s1 = drawUI s2.
Proof.
  intros Hd Hg. unfold drawUI, bpm_text. now rewrite Hd, Hg.
Qed.

Lemma drawUI_nonempty s : drawUI s <> [].
Proof. unfold drawUI. discriminate. Qed.

(** The frames of an iteration and the refresh time stamp it leaves. *)
Lemma loop_frames raw now s :
  exists s' : state F,
    loop raw now s
    = Some (s', (if bpm_accepted raw now s then drawUI s' else [])
                ++ (if refresh_due now s then drawUI s' else []))
    /\ lastRefresh s' = (if refresh_due now s then now else lastRefresh s).
Proof.
  unfold refresh_due.
  destruct (loop_path raw now s) as [Hb | [[Hb Hz] | [c Hc]]].
  - rewrite (loop_idle _ _ _ Hb).
    destruct (finish_fields raw now (set_ema (ema_update (ema s) raw) s) [] s)
      as (s' & -> & _ & _ & _ & _ & _ & _ & Hr).
    exists s'. unfold bpm_accepted, candidate. rewrite Hb. cbn in *. now split.
  - rewrite (loop_first _ _ _ Hb Hz).
    destruct (finish_fields raw now
                (set_lastBeatMs now (set_ema (ema_update (ema s) raw) s)) [] s)
      as (s' & -> & _ & _ & _ & _ & _ & _ & Hr).
    exists s'. unfold bpm_accepted, candidate. rewrite Hb, Hz. cbn in *. now split.
  - unfold bpm_accepted. rewrite Hc. destruct (accept c) eqn:Ha.
    + rewrite (loop_accepted _ _ _ _ Hc Ha). cbv zeta.
      set (s1 := set_ema (ema_update (ema s) raw) s).
      destruct (accept_beat_fields c s1) as (Hout & _ & Ad & Ag & _ & Ar).
      destruct (finish_fields raw now (set_lastBeatMs now (accept_beat c s1).1)
                  (accept_beat c s1).2 s)
        as (s' & -> & _ & _ & _ & _ & Hdisp & Hbuf & Hr).
      destruct (set_lastBeatMs_fields now (accept_beat c s1).1)
        as (_ & _ & Ld & Lg & Lr).
      rewrite Lr, Ar in Hr |- *. rewrite Ld in Hdisp. rewrite Lg in Hbuf.
      change (lastRefresh s1) with (lastRefresh s) in Hr |- *.
      exists s'. split; [| exact Hr].
      rewrite Hout. now rewrite (drawUI_ext (accept_beat c s1).1 s').
    + rewrite (loop_rejected _ _ _ _ Hc Ha).
      destruct (finish_fields raw now
                  (set_lastBeatMs now (set_ema (ema_update (ema s) raw) s)) [] s)
        as (s' & -> & _ & _ & _ & _ & _ & _ & Hr).
      exists s'. cbn in *. now split.
Qed.

(** *** Runs *)

Lemma run_cons raw now rest s :
  run ((raw, now) :: rest) s
  = match loop raw now s with
    | Some (s1, out1) =>
        match run rest s1 with
        | Some (s2, out2) => Some (s2, out1 ++ out2)
        | None => None
        end
    | None => None
    end.
Proof.
  cbn [run]. destruct (loop raw now s) as [[s1 out1]|]; cbn; [| reflexivity].
  now destruct (run rest s1) as [[s2 out2]|].
Qed.

Lemma loop_preserves_bpm_inv raw now s s' out :
  bpm_inv s -> loop raw now s = Some (s', out) -> bpm_inv s'.
Proof.
  intros [Hb Hd] Hl.
  destruct (loop_summary raw now s) as (s1 & sd & pre & Hl' & _ & _ & Hacc).
  rewrite Hl' in Hl. injection Hl as -> _.
  unfold bpm_inv, bpm_valid in *.
  destruct (bpm_accepted raw now s).
  - destruct Hacc as (c & _ & Hc & -> & -> & _). split; right; exact Hc.
  - destruct Hacc as (-> & -> & _). now split.
Qed.

(** Every number a run prints is in the window. *)
Lemma loop_prints_in_window raw now s s' out n :
  loop raw now s = Some (s', out) -> In (PrintInt n) out -> 60 <= n <= 130.
Proof.
  intros Hl Hin.
  destruct (loop_summary raw now s) as (s1 & sd & pre & Hl' & _ & _ & Hacc).
  rewrite Hl' in Hl. injection Hl as -> <-.
  apply in_app_or in Hin as [Hin | Hin].
  - destruct (bpm_accepted raw now s).
    + destruct Hacc as (c & _ & _ & _ & _ & _ & ->).
      now apply (drawUI_text sd _ Hin).
    + destruct Hacc as (_ & _ & _ & ->). destruct Hin.
  - destruct (usub now (lastRefresh s) >? 500); [| destruct Hin].
    now apply (drawUI_text s' _ Hin).
Qed.

(** An iteration that accepts no BPM prints no number while none is shown. *)
Lemma loop_not_accepted raw now s s' out :
  bpm_accepted raw now s = false -> loop raw now s = Some (s', out) ->
  bpm s' = bpm s /\ bpmDisplayed s' = bpmDisplayed s
  /\ (bpmDisplayed s = 0 -> forall n, ~ In (PrintInt n) out).
Proof.
  intros Hn Hl.
  destruct (loop_summary raw now s) as (s1 & sd & pre & Hl' & _ & _ & Hacc).
  rewrite Hl' in Hl. injection Hl as -> <-. rewrite Hn in Hacc.
  destruct Hacc as (Hb & Hd & _ & ->). split; [exact Hb |]. split; [exact Hd |].
  intros Hz n Hin. cbn [app] in Hin.
  destruct (usub now (lastRefresh s) >? 500); [| destruct Hin].
  destruct (drawUI_text s' _ Hin) as [Hp _].
  destruct (Hp n eq_refl) as [-> Hr]. lia.
Qed.

(** Once a BPM is shown, every later frame shows a number of the window. *)
Lemma loop_keeps_shown raw now s s' out :
  60 <= bpmDisplayed s <= 130 -> loop raw now s = Some (s', out) ->
  60 <= bpmDisplayed s' <= 130 /\ ~ In (PrintStr "--") out.
Proof.
  intros Hs Hl.
  destruct (loop_summary raw now s) as (s1 & sd & pre & Hl' & Hsd & _ & Hacc).
  rewrite Hl' in Hl. injection Hl as -> <-.
  assert (Hs' : 60 <= bpmDisplayed s' <= 130).
  { destruct (bpm_accepted raw now s).
    - destruct Hacc as (c & _ & Hc & _ & -> & _). exact Hc.
    - destruct Hacc as (_ & -> & _). exact Hs. }
  split; [exact Hs' |]. intros Hin.
  apply in_app_or in Hin as [Hin | Hin].
  - destruct (bpm_accepted raw now s).
    + destruct Hacc as (c & _ & _ & _ & _ & _ & ->).
      destruct (drawUI_text sd _ Hin) as [_ Hd]. apply Hd; [reflexivity |].
      now rewrite Hsd.
    + destruct Hacc as (_ & _ & _ & ->). destruct Hin.
  - destruct (usub now (lastRefresh s) >? 500); [| destruct Hin].
    destruct (drawUI_text s' _ Hin) as [_ Hd]. now apply Hd.
Qed.

Lemma run_preserves_bpm_inv ins :
  forall s s' out, bpm_inv s -> run ins s = Some (s', out) -> bpm_inv s'.
Proof.
  induction ins as [|[raw now] rest IH]; intros s s' out Hi Hrun.
  - cbn in Hrun. now injection Hrun as <- _.
  - rewrite run_cons in Hrun.
    destruct (loop raw now s) as [[s1 o1]|] eqn:Hl; [| discriminate Hrun].
    destruct (run rest s1) as [[s2 o2]|] eqn:Hr; [| discriminate Hrun].
    injection Hrun as <- _.
    eapply IH; [| exact Hr]. eapply loop_preserves_bpm_inv; eassumption.
Qed.

Lemma run_prints_in_window ins :
  forall s s' out n,
    run ins s = Some (s', out) -> In (PrintInt n) out -> 60 <= n <= 130.
Proof.
  induction ins as [|[raw now] rest IH]; intros s s' out n Hrun Hin.
  - cbn in Hrun. injection Hrun as _ <-. destruct Hin.
  - rewrite run_cons in Hrun.
    destruct (loop raw now s) as [[s1 o1]|] eqn:Hl; [| discriminate Hrun].
    destruct (run rest s1) as [[s2 o2]|] eqn:Hr; [| discriminate Hrun].
    injection Hrun as _ <-.
    apply in_app_or in Hin as [Hin | Hin].
    + eapply loop_prints_in_window; eassumption.
    + eapply IH; eassumption.
Qed.

Lemma run_keeps_shown ins :
  forall s s' out,
    60 <= bpmDisplayed s <= 130 -> run ins s = Some (s', out) ->
    60 <= bpmDisplayed s' <= 130 /\ ~ In (PrintStr "--") out.
Proof.
  induction ins as [|[raw now] rest IH]; intros s s' out Hs Hrun.
  - cbn in Hrun. injection Hrun as <- <-. split; [exact Hs | intros []].
  - rewrite run_cons in Hrun.
    destruct (loop raw now s) as [[s1 o1]|] eqn:Hl; [| discriminate Hrun].
    destruct (run rest s1) as [[s2 o2]|] eqn:Hr; [| discriminate Hrun].
    injection Hrun as <- <-.
    destruct (loop_keeps_shown _ _ _ _ _ Hs Hl) as [Hs1 Hn1].
    destruct (IH _ _ _ Hs1 Hr) as [Hs2 Hn2].
    split; [exact Hs2 |]. intros Hin. apply in_app_or in Hin as [Hin | Hin]; tauto.
Qed.

Lemma run_without_accepted ins :
  forall s s' out,
    accepted_count ins s = 0%nat -> run ins s = Some (s', out) ->
    bpm s' = bpm s /\ bpmDisplayed s' = bpmDisplayed s
    /\ (bpmDisplayed s = 0 -> forall n, ~ In (PrintInt n) out).
Proof.
  induction ins as [|[raw now] rest IH]; intros s s' out Hc Hrun.
  - cbn in Hrun. injection Hrun as <- <-. repeat split. intros _ n [].
  - rewrite run_cons in Hrun. cbn [accepted_count] in Hc.
    destruct (loop raw now s) as [[s1 o1]|] eqn:Hl; [| discriminate Hrun].
    destruct (run rest s1) as [[s2 o2]|] eqn:Hr; [| discriminate Hrun].
    injection Hrun as <- <-.
    destruct (bpm_accepted raw now s) eqn:Ha; [discriminate Hc |].
    cbn in Hc.
    destruct (loop_not_accepted _ _ _ _ _ Ha Hl) as (Hb1 & Hd1 & Hp1).
    destruct (IH _ _ _ Hc Hr) as (Hb2 & Hd2 & Hp2).
    split; [congruence |]. split; [congruence |].
    intros Hz n Hin. apply in_app_or in Hin as [Hin | Hin].
    + exact (Hp1 Hz n Hin).
    + apply (Hp2 ltac:(congruence) n Hin).
Qed.

Lemma run_with_accepted ins :
  forall s s' out,
    accepted_count ins s <> 0%nat -> run ins s = Some (s', out) ->
    60 <= bpmDisplayed s' <= 130.
Proof.
  induction ins as [|[raw now] rest IH]; intros s s' out Hc Hrun.
  - cbn in Hc. congruence.
  - rewrite run_cons in Hrun. cbn [accepted_count] in Hc.
    destruct (loop raw now s) as [[s1 o1]|] eqn:Hl; [| discriminate Hrun].
    destruct (run rest s1) as [[s2 o2]|] eqn:Hr; [| discriminate Hrun].
    injection Hrun as <- _.
    destruct (bpm_accepted raw now s) eqn:Ha.
    + destruct (loop_summary raw now s) as (sx & sd & pre & Hl' & _ & _ & Hacc).
      rewrite Hl' in Hl. injection Hl as -> _. rewrite Ha in Hacc.
      destruct Hacc as (c & _ & Hr1 & _ & Hd & _).
      apply (run_keeps_shown rest s1 s2 o2); [now rewrite Hd | exact Hr].
    + apply (IH s1 s2 o2); [exact Hc | exact Hr].
Qed.

(** The time stamp stays where it is while no beat is detected. *)
Lemma run_no_beat ins :
  forall s s' out,
    detected_count ins s = 0%nat -> run ins s = Some (s', out) ->
    lastBeatMs s' = lastBeatMs s.
Proof.
  induction ins as [|[raw now] rest IH]; intros s s' out Hc Hrun.
  - cbn in Hrun. now injection Hrun as <- _.
  - rewrite run_cons in Hrun. cbn [detected_count] in Hc.
    destruct (loop raw now s) as [[s1 o1]|] eqn:Hl; [| discriminate Hrun].
    destruct (run rest s1) as [[s2 o2]|] eqn:Hr; [| discriminate Hrun].
    injection Hrun as <- _.
    destruct (beat_detected raw now s) eqn:Hb; [discriminate Hc |]. cbn in Hc.
    destruct (loop_summary raw now s) as (sx & sd & pre & Hl' & _ & Hlast & _).
    rewrite Hl' in Hl. injection Hl as -> _. rewrite Hb in Hlast.
    rewrite (IH _ _ _ Hc Hr). exact Hlast.
Qed.

(** What a detected beat computes: nothing on the 0 sentinel, else the
    quotient by the interval. *)
Lemma candidate_of_beat raw now s :
  beat_detected raw now s = true ->
  candidate raw now s
  = (if lastBeatMs s =? 0 then None else Some (60000 / elapsed now s)).
Proof.
  intros Hb. unfold candidate. rewrite Hb.
  destruct (Z.eqb_spec (lastBeatMs s) 0); [reflexivity |]. cbn.
  unfold beat_detected in Hb. apply andb_prop in Hb as [_ Hr].
  apply Z.gtb_lt in Hr. unfold refractoryMs in Hr.
  destruct (bpm_of_interval_spec (elapsed now s)) as [Hq _]; [lia |].
  exact Hq.
Qed.

(** C2 (amended): in an iteration that computes a candidate and rejects it,
    the persisted BPM, the displayed BPM and every slot of the trend buffer
    keep their values and the rejection draws nothing: the only redraw the
    iteration can make is the periodic one, due when more than 500 ms have
    passed since the last refresh.  The last-beat time stamp is set to the
    current clock reading; the baseline, the edge flag and the refresh time
    stamp are updated as in any iteration.  The time stamp then keeps that
    reading through the iterations that detect no beat, and the next
    detected beat measures its interval from it, computing the candidate
    [60000 / interval], unless the reading is 0: then the time stamp is the
    "no beat yet" sentinel and the next detected beat computes no
    candidate. *)
Theorem rejected_candidate_frame raw now s c :
  candidate raw now s = Some c -> accept c = false ->
  exists s',
    loop raw now s
    = Some (s', if usub now (lastRefresh s) >? 500 then drawUI s' else [])
    /\ bpm s' = bpm s
    /\ bpmDisplayed s' = bpmDisplayed s
    /\ graphBuf s' = graphBuf s
    /\ lastBeatMs s' = now
    /\ ema s' = ema_update (ema s) raw
    /\ prevAbove s' = true
    /\ lastRefresh s'
       = (if usub now (lastRefresh s) >? 500 then now else lastRefresh s)
    /\ (forall mid s1 outm raw' now',
          run mid s' = Some (s1, outm) -> detected_count mid s' = 0%nat ->
          beat_detected raw' now' s1 = true ->
          lastBeatMs s1 = now
          /\ elapsed now' s1 = usub now' now
          /\ candidate raw' now' s1
             = (if now =? 0 then None else Some (60000 / usub now' now))).
Proof.
  intros Hc Ha. rewrite (loop_rejected _ _ _ _ Hc Ha).
  apply candidate_inv in Hc as (Hb & _).
  unfold beat_detected, rising_edge in Hb.
  apply andb_prop in Hb as [Hb _]. apply andb_prop in Hb as [Habove _].
  destruct (finish_fields raw now
              (set_lastBeatMs now (set_ema (ema_update (ema s) raw) s)) [] s)
    as (s' & -> & Hema & Hprev & Hlast & Hbpm & Hdisp & Hbuf & Href).
  exists s'. cbn in Hema, Hprev, Hlast, Hbpm, Hdisp, Hbuf, Href |- *.
  rewrite Habove in Hprev.
  split; [reflexivity |]. split; [exact Hbpm |]. split; [exact Hdisp |].
  split; [exact Hbuf |]. split; [exact Hlast |]. split; [exact Hema |].
  split; [exact Hprev |]. split; [exact Href |].
  intros mid s1 outm raw' now' Hrun Hnone Hbeat.
  assert (Ht : lastBeatMs s1 = now)
    by (rewrite (run_no_beat mid _ _ _ Hnone Hrun); exact Hlast).
  assert (He : elapsed now' s1 = usub now' now) by (unfold elapsed; now rewrite Ht).
  split; [exact Ht |]. split; [exact He |].
  now rewrite (candidate_of_beat _ _ _ Hbeat), Ht, He.
Qed.

(** C10 (amended): the persisted and the displayed BPM are each the initial
    0 or a value in [60, 130] after [setup] and after every iteration.  What
    the display shows follows, frame by frame.  [setup] draws the banner,
    which carries neither the placeholder nor a number, and an iteration
    draws exactly the frame of an accepted BPM and the frame of a due
    refresh.  Along every run from [setup], every frame drawn while no BPM
    has been accepted shows the placeholder "--" and no number; the
    iteration that accepts a BPM draws a frame, and from then on every frame
    shows the displayed BPM, a number within 60..130, and never the
    placeholder. *)
Theorem bpm_window_invariant :
  bpm_inv (setup_state (F := F))
  /\ (forall raw now s s' out,
        bpm_inv s -> loop raw now s = Some (s', out) -> bpm_inv s')
  /\ (forall s,
        bpm_inv s ->
        bpm_text s = (if bpmDisplayed s =? 0 then PrintStr "--"
                      else PrintInt (bpmDisplayed s))
        /\ In (bpm_text s) (drawUI s))
  /\ (forall ins s' out,
        run ins (setup_state (F := F)) = Some (s', out) ->
        bpm_inv s'
        /\ (forall n, In (PrintInt n) out -> 60 <= n <= 130)
        /\ (accepted_count ins (setup_state (F := F)) = 0%nat ->
            bpm s' = 0 /\ bpmDisplayed s' = 0
            /\ bpm_text s' = PrintStr "--"
            /\ forall n, ~ In (PrintInt n) out)
        /\ (accepted_count ins (setup_state (F := F)) <> 0%nat ->
            60 <= bpmDisplayed s' <= 130
            /\ bpm_text s' = PrintInt (bpmDisplayed s')
            /\ forall more s'' out',
                run more s' = Some (s'', out') ->
                60 <= bpmDisplayed s'' <= 130
                /\ bpm_text s'' = PrintInt (bpmDisplayed s'')
                /\ ~ In (PrintStr "--") out'))
  /\ (setup (F := F) true = Some (setup_state, banner)
      /\ ~ In (PrintStr "--") banner /\ forall n, ~ In (PrintInt n) banner)
  /\ (forall ins s outs raw now,
        run ins (setup_state (F := F)) = Some (s, outs) ->
        exists s',
          loop raw now s
          = Some (s', (if bpm_accepted raw now s then drawUI s' else [])
                      ++ (if refresh_due now s then drawUI s' else []))
          /\ (accepted_count ins (setup_state (F := F)) = 0%nat ->
              bpm_accepted raw now s = false ->
              In (PrintStr "--") (drawUI s')
              /\ forall n, ~ In (PrintInt n) (drawUI s'))
          /\ (accepted_count ins (setup_state (F := F)) <> 0%nat
              \/ bpm_accepted raw now s = true ->
              60 <= bpmDisplayed s' <= 130
              /\ In (PrintInt (bpmDisplayed s')) (drawUI s')
              /\ ~ In (PrintStr "--") (drawUI s'))).
Proof.
  assert (Hinit : bpm_inv (setup_state (F := F))) by (split; now left).
  assert (Htext : forall s, 60 <= bpmDisplayed s <= 130 ->
                            bpm_text s = PrintInt (bpmDisplayed s)).
  { intros s Hs. destruct (bpm_text_cases s) as [[_ Ht] | [Hn _]];
      [exact Ht | contradiction]. }
  split; [exact Hinit |].
  split; [exact loop_preserves_bpm_inv |]. split; [| split; [| split]].
  - intros s [_ Hd]. split; [| apply bpm_text_in_drawUI].
    destruct Hd as [Hz | Hr].
    + rewrite Hz. unfold bpm_text. now rewrite Hz.
    + destruct (Z.eqb_spec (bpmDisplayed s) 0); [lia |]. now apply Htext.
  - intros ins s' out Hrun.
    split; [exact (run_preserves_bpm_inv ins _ _ _ Hinit Hrun) |].
    split; [intros n; exact (run_prints_in_window ins _ _ _ n Hrun) |].
    split.
    + intros Hc.
      destruct (run_without_accepted ins _ _ _ Hc Hrun) as (Hb & Hd & Hp).
      change (bpm (setup_state (F := F))) with 0 in Hb.
      change (bpmDisplayed (setup_state (F := F))) with 0 in Hd.
      split; [exact Hb |]. split; [exact Hd |].
      split; [unfold bpm_text; now rewrite Hd | exact (Hp eq_refl)].
    + intros Hc. pose proof (run_with_accepted ins _ _ _ Hc Hrun) as Hs.
      split; [exact Hs |]. split; [now apply Htext |].
      intros more s'' out' Hmore.
      destruct (run_keeps_shown more _ _ _ Hs Hmore) as [Hs2 Hn].
      split; [exact Hs2 |]. split; [now apply Htext | exact Hn].
  - split; [reflexivity | exact banner_text].
  - intros ins s outs raw now Hrun.
    destruct (loop_frames raw now s) as (s' & Hl & _).
    exists s'. split; [exact Hl |].
    destruct (loop_summary raw now s) as (sx & sd & pre & Hl' & _ & _ & Hacc).
    rewrite Hl in Hl'. injection Hl' as <- _.
    split.
    + intros Hc Hn. rewrite Hn in Hacc. destruct Hacc as (_ & Hd & _).
      destruct (run_without_accepted ins _ _ _ Hc Hrun) as (_ & Hd0 & _).
      change (bpmDisplayed (setup_state (F := F))) with 0 in Hd0.
      apply frame_of_unset. now rewrite Hd.
    + intros Hc.
      assert (Hs : 60 <= bpmDisplayed s' <= 130).
      { destruct (bpm_accepted raw now s).
        - destruct Hacc as (c & _ & Hr & _ & -> & _). exact Hr.
        - destruct Hacc as (_ & -> & _).
          destruct Hc as [Hc | Hc]; [| discriminate Hc].
          exact (run_with_accepted ins _ _ _ Hc Hrun). }
      split; [exact Hs |]. now apply frame_of_shown.
Qed.

(** *** The graph buffer keeps the width of the display *)

Lemma setup_graph_width :
  length (graphBuf (setup_state (F := F))) = Z.to_nat SCREEN_WIDTH.
Proof. reflexivity. Qed.

Lemma loop_keeps_graph_width raw now s s' out :
  loop raw now s = Some (s', out) -> length (graphBuf s') = length (graphBuf s).
Proof.
  intros Hl.
  destruct (loop_summary raw now s) as (s1 & sd & pre & Hl' & _ & _ & Hacc).
  rewrite Hl' in Hl. injection Hl as -> _.
  destruct (bpm_accepted raw now s).
  - destruct Hacc as (c & _ & _ & _ & _ & -> & _). apply pushGraph_length.
  - destruct Hacc as (_ & _ & -> & _). reflexivity.
Qed.

Lemma run_keeps_graph_width ins :
  forall s s' out,
    run ins s = Some (s', out) -> length (graphBuf s') = length (graphBuf s).
Proof.
  induction ins as [|[raw now] rest IH]; intros s s' out Hrun.
  - cbn in Hrun. now injection Hrun as <- _.
  - rewrite run_cons in Hrun.
    destruct (loop raw now s) as [[s1 o1]|] eqn:Hl; [| discriminate Hrun].
    destruct (run rest s1) as [[s2 o2]|] eqn:Hr; [| discriminate Hrun].
    injection Hrun as <- _.
    rewrite (IH _ _ _ Hr). eapply loop_keeps_graph_width; eassumption.
Qed.

(** *** The baseline *)

Lemma on_beat_ema now s s2 out :
  on_beat now s = Some (s2, out) -> ema s2 = ema s.
Proof.
  unfold on_beat, accept_beat. intros Hb.
  destruct (negb (lastBeatMs s =? 0)); cbn in Hb.
  - destruct (bpm_of_interval _) as [c|]; cbn in Hb; [| discriminate Hb].
    destruct (accept c); cbn in Hb; injection Hb as <- _; reflexivity.
  - injection Hb as <- _. reflexivity.
Qed.

(** Whatever path an iteration takes, it leaves the baseline computed at
    line 154. *)
Lemma loop_with_ema refr raw now s s' out :
  loop_with refr raw now s = Some (s', out) ->
  ema s' = ema_update (ema s) raw.
Proof.
  rewrite loop_with_unfold. unfold detect_with.
  set (s1 := set_ema (ema_update (ema s) raw) s).
  assert (Hs1 : ema s1 = ema_update (ema s) raw) by reflexivity.
  assert (Hd : forall s2 o,
             (if is_above raw s && negb (prevAbove s1)
              then if usub now (lastBeatMs s1) >? refr
                   then on_beat now s1 else Some (s1, [])
              else Some (s1, [])) = Some (s2, o) -> ema s2 = ema s1).
  { intros s2 o Hd.
    destruct (is_above raw s && negb (prevAbove s1));
      [destruct (usub now (lastBeatMs s1) >? refr) |];
      try (injection Hd as <- _; reflexivity).
    now apply on_beat_ema in Hd. }
  destruct (if is_above raw s && negb (prevAbove s1) then _ else _)
    as [[s2 o]|]; [| discriminate].
  specialize (Hd s2 o eq_refl). cbv zeta. intros Hl. injection Hl as <- _.
  rewrite refresh_spec.
  destruct (usub now (lastRefresh (set_prevAbove (is_above raw s) s2)) >? 500);
    cbn; congruence.
Qed.

(** Whatever path an iteration takes, it leaves the edge flag on the
    classification of its sample (line 182). *)
Lemma loop_with_edge_flag refr raw now s s' out :
  loop_with refr raw now s = Some (s', out) ->
  prevAbove s' = is_above raw s.
Proof.
  rewrite loop_with_unfold.
  destruct (detect_with refr (is_above raw s) now _) as [[s2 o]|];
    [| discriminate].
  cbv zeta. intros Hl. injection Hl as <- _.
  rewrite refresh_spec.
  destruct (usub now (lastRefresh (set_prevAbove (is_above raw s) s2)) >? 500);
    reflexivity.
Qed.

End LoopProperties.

(** ** The baseline in binary32 *)

Lemma run_keeps_baseline_in_range (ins : list (Z * Z)) :
  forall (s s' : state spec_float) out,
    Forall (fun i => 0 <= i.1 <= MAX_SAMPLE) ins ->
    in_sample_range (ema s) /\ Binary32.is_finite (ema s) = true ->
    run ins s = Some (s', out) ->
    in_sample_range (ema s') /\ Binary32.is_finite (ema s') = true.
Proof.
  induction ins as [|[raw now] rest IH]; intros s s' out Hall Hs Hrun.
  - cbn in Hrun. now injection Hrun as <- _.
  - apply Forall_cons in Hall as [Hraw Hall]. cbn [fst] in Hraw.
    rewrite run_cons in Hrun.
    destruct (loop raw now s) as [[s1 o1]|] eqn:Hl; [| discriminate Hrun].
    destruct (run rest s1) as [[s2 o2]|] eqn:Hr; [| discriminate Hrun].
    injection Hrun as <- _.
    apply (IH s1 s2 o2 Hall); [| exact Hr].
    rewrite (loop_with_ema _ _ _ _ _ _ Hl).
    apply ema_update_in_range; [apply Hs | exact Hraw].
Qed.

(** C9: every iteration replaces the baseline by
    [(1.0f - emaAlpha) * ema + emaAlpha * raw], a function of the previous
    baseline and the sample alone, with the fixed factor [emaAlpha = 0.05f]
    strictly between 0 and 1; in binary32 (each operation rounded to nearest
    even) the result is a finite number within [0, MAX_SAMPLE] whenever the
    previous baseline and the sample are, and so is the baseline all along a
    run from [setup] on samples of that range. *)
Theorem baseline_update_is_ema :
  (SFltb (Binary32.of_int 0) emaAlpha = true
   /\ SFltb emaAlpha (Binary32.of_int 1) = true)
  /\ (forall raw now (s s' : state spec_float) out,
        loop raw now s = Some (s', out) ->
        ema s' = f_add (f_mul (f_sub f_one emaAlpha) (ema s))
                       (f_mul emaAlpha (f_of_int raw)))
  /\ (forall (b : spec_float) raw,
        in_sample_range b -> 0 <= raw <= MAX_SAMPLE ->
        in_sample_range (ema_update b raw)
        /\ Binary32.is_finite (ema_update b raw) = true)
  /\ (forall ins (s' : state spec_float) out,
        Forall (fun i => 0 <= i.1 <= MAX_SAMPLE) ins ->
        run ins setup_state = Some (s', out) ->
        in_sample_range (ema s') /\ Binary32.is_finite (ema s') = true).
Proof.
  split; [split; reflexivity |]. split; [| split].
  - intros raw now s s' out Hl. exact (loop_with_ema _ _ _ _ _ _ Hl).
  - exact ema_update_in_range.
  - intros ins s' out Hall Hrun.
    apply (run_keeps_baseline_in_range ins setup_state s' out Hall); [| exact Hrun].
    split; [repeat split |]; reflexivity.
Qed.

(** ** The statements on recorded runs *)

(** Two runs of the same iteration end in the same state. *)
Lemma same_result_state {A B : Type} (a a' : A) (b b' : B) :
  Some (a, b) = Some (a', b') -> a = a'.
Proof. now intros [= -> _]. Qed.

(** A clean spike every 600 ms: the first beat only sets the time stamp,
    every later one is accepted with 100 BPM and pushes its coordinate. *)
Example periodic_spikes_give_100_bpm :
  let s := Trace.state_after
             [(1000, 300); (0, 400); (1000, 900); (0, 1000); (1000, 1500)] in
  bpm s = 100 /\ bpmDisplayed s = 100 /\ lastBeatMs s = 1500
  /\ drop 126 (graphBuf s) = [mapBpmToY 100; mapBpmToY 100]
  /\ accepted_count
       [(1000, 300); (0, 400); (1000, 900); (0, 1000); (1000, 1500)]
       (setup_state (F := spec_float)) = 2%nat.
Proof. vm_compute. repeat split. Qed.

(** The graph starts as the flat line of 95 BPM. *)
Example setup_flat_line :
  graphBuf (setup_state (F := spec_float))
  = replicate (Z.to_nat SCREEN_WIDTH) (mapBpmToY 95)
  /\ mapBpmToY 95 = 42.
Proof. split; reflexivity. Qed.


Lemma baseline_update_is_ema_witness :
  in_sample_range (ema_update (f_half_scale : spec_float) 1000)
  /\ in_sample_range (ema (Trace.state_after [(1000, 300); (0, 400)])).
Proof.
  destruct baseline_update_is_ema as (_ & _ & Hstep & Hrun).
  split.
  - apply (Hstep f_half_scale 1000).
    + repeat split; reflexivity.
    + unfold MAX_SAMPLE. lia.
  - destruct (run [(1000, 300); (0, 400)] (setup_state (F := spec_float)))
      as [[s' out]|] eqn:Hr.
    + assert (Hs : Trace.state_after [(1000, 300); (0, 400)] = s')
        by (unfold Trace.state_after; now rewrite Hr).
      rewrite Hs. apply (Hrun [(1000, 300); (0, 400)] s' out); [| exact Hr].
      repeat constructor; unfold MAX_SAMPLE; cbn; lia.
    + vm_compute in Hr. discriminate Hr.
Defined.

Lemma no_division_by_zero_witness :
  (exists s' out, loop_with 250 1000 761 Trace.after_first_beat = Some (s', out))
  /\ 0 < usub 761 (lastBeatMs Trace.after_first_beat)
  /\ detect_with 250 true 300 Trace.after_first_beat
     = Some (Trace.after_first_beat, []).
Proof.
  destruct (no_division_by_zero 250) as (Htotal & Hpos & Hzero); [lia |].
  split; [apply Htotal |].
  split.
  - apply (Hpos true 761 Trace.after_first_beat). vm_compute. reflexivity.
  - apply (Hzero true 300 Trace.after_first_beat). vm_compute. reflexivity.
Defined.

Lemma bpm_conversion_truncates_witness :
  (exists q, bpm_of_interval 461 = Some q
             /\ q = 60000 / 461 /\ q * 461 <= 60000 < (q + 1) * 461)
  /\ 130 = 60000 / elapsed 761 Trace.after_first_beat.
Proof.
  destruct (bpm_conversion_truncates (F := spec_float)) as (Hconv & Hloop & _).
  split.
  - apply (Hconv 461). lia.
  - apply (Hloop 1000 761 Trace.after_first_beat 130). vm_compute. reflexivity.
Defined.


Lemma range_validation_inclusive_witness :
  (exists s' out,
      loop 1000 1300 Trace.after_first_beat = Some (s', out)
      /\ candidate 1000 1300 Trace.after_first_beat = Some 60
      /\ bpm s' = 60 /\ bpmDisplayed s' = 60
      /\ graphBuf s' = pushGraph (graphBuf Trace.after_first_beat) 60)
  /\ (exists s' out,
        loop 1000 761 Trace.after_first_beat = Some (s', out)
        /\ candidate 1000 761 Trace.after_first_beat = Some 130
        /\ bpm s' = 130 /\ bpmDisplayed s' = 130
        /\ graphBuf s' = pushGraph (graphBuf Trace.after_first_beat) 130)
  /\ (exists s' out,
        loop 1000 1310 Trace.after_first_beat = Some (s', out)
        /\ candidate 1000 1310 Trace.after_first_beat = Some 59
        /\ bpm s' = 0 /\ bpmDisplayed s' = 0
        /\ graphBuf s' = graphBuf Trace.after_first_beat)
  /\ (exists s' out,
        loop 1000 758 Trace.after_first_beat = Some (s', out)
        /\ candidate 1000 758 Trace.after_first_beat = Some 131
        /\ bpm s' = 0 /\ bpmDisplayed s' = 0
        /\ graphBuf s' = graphBuf Trace.after_first_beat).
Proof.
  destruct (range_validation_inclusive (F := spec_float))
    as (_ & _ & _ & _ & _ & Hloop).
  assert (H60 : candidate 1000 1300 Trace.after_first_beat = Some 60)
    by (vm_compute; reflexivity).
  assert (H130 : candidate 1000 761 Trace.after_first_beat = Some 130)
    by (vm_compute; reflexivity).
  assert (H59 : candidate 1000 1310 Trace.after_first_beat = Some 59)
    by (vm_compute; reflexivity).
  assert (H131 : candidate 1000 758 Trace.after_first_beat = Some 131)
    by (vm_compute; reflexivity).
  split; [| split; [| split]].
  - destruct (Hloop _ _ _ _ H60) as (s' & out & Hl & Hacc & _).
    destruct Hacc as (Hb & Hd & Hg & _); [lia |].
    exists s', out. repeat split; assumption.
  - destruct (Hloop _ _ _ _ H130) as (s' & out & Hl & Hacc & _).
    destruct Hacc as (Hb & Hd & Hg & _); [lia |].
    exists s', out. repeat split; assumption.
  - destruct (Hloop _ _ _ _ H59) as (s' & out & Hl & _ & Hrej).
    destruct Hrej as (Hb & Hd & Hg); [lia |].
    exists s', out. repeat split; assumption.
  - destruct (Hloop _ _ _ _ H131) as (s' & out & Hl & _ & Hrej).
    destruct Hrej as (Hb & Hd & Hg); [lia |].
    exists s', out. repeat split; assumption.
Defined.

Lemma rejected_candidate_frame_witness :
  exists s',
    loop 1000 600 Trace.after_first_beat = Some (s', drawUI s')
    /\ bpm s' = 0 /\ bpmDisplayed s' = 0
    /\ graphBuf s' = graphBuf Trace.after_first_beat
    /\ lastBeatMs s' = 600
    /\ exists s1 outm,
        run [(0, 650)] s' = Some (s1, outm)
        /\ beat_detected 1000 1200 s1 = true
        /\ candidate 1000 1200 s1 = Some (60000 / usub 1200 600).
Proof.
  assert (Hc : candidate 1000 600 Trace.after_first_beat = Some 200)
    by (vm_compute; reflexivity).
  destruct (rejected_candidate_frame 1000 600 Trace.after_first_beat 200 Hc eq_refl)
    as (s' & Hl & Hb & Hd & Hg & Ht & _ & _ & _ & Hnext).
  assert (Hl2 : loop 1000 600 Trace.after_first_beat
                = Some (Trace.state_after [(1000, 300); (0, 400); (1000, 600)],
                        drawUI (Trace.state_after
                                  [(1000, 300); (0, 400); (1000, 600)])))
    by (vm_compute; reflexivity).
  assert (Hm : run [(0, 650)] (Trace.state_after [(1000, 300); (0, 400); (1000, 600)])
               = Some (Trace.state_after
                         [(1000, 300); (0, 400); (1000, 600); (0, 650)], []))
    by (vm_compute; reflexivity).
  assert (Hn : detected_count [(0, 650)]
                 (Trace.state_after [(1000, 300); (0, 400); (1000, 600)]) = 0%nat)
    by (vm_compute; reflexivity).
  assert (Hbeat : beat_detected 1000 1200
                    (Trace.state_after
                       [(1000, 300); (0, 400); (1000, 600); (0, 650)]) = true)
    by (vm_compute; reflexivity).
  assert (Hs : Trace.state_after [(1000, 300); (0, 400); (1000, 600)] = s').
  { rewrite Hl2 in Hl. exact (same_result_state _ _ _ _ Hl). }
  rewrite Hs in Hm, Hn.
  destruct (Hnext _ _ _ 1000 1200 Hm Hn Hbeat) as (_ & _ & Hnextc).
  exists s'. split; [exact Hl |]. split; [exact Hb |]. split; [exact Hd |].
  split; [exact Hg |]. split; [exact Ht |].
  eexists _, _. split; [exact Hm |]. split; [exact Hbeat | exact Hnextc].
Defined.

(** C2 as stated fails: 300 ms after the first beat (at 300 ms) a candidate
    of 200 BPM is computed and rejected while the periodic refresh is due
    (600 ms since the last one), so the iteration redraws; it also sets the
    edge flag. *)
Lemma rejected_candidate_may_redraw :
  (candidate 1000 600 Trace.after_first_beat = Some 200
   /\ accept 200 = false
   /\ prevAbove Trace.after_first_beat = false
   /\ exists s',
       loop 1000 600 Trace.after_first_beat = Some (s', drawUI s')
       /\ drawUI s' <> [] /\ prevAbove s' = true)
  /\ ~ (forall (raw now : Z) (s s' : state spec_float) (c : Z)
               (out : list draw_cmd),
          candidate raw now s = Some c -> accept c = false ->
          loop raw now s = Some (s', out) ->
          bpm s' = bpm s /\ bpmDisplayed s' = bpmDisplayed s
          /\ graphBuf s' = graphBuf s
          /\ out = []
          /\ lastBeatMs s' = now).
Proof.
  assert (Hc : candidate 1000 600 Trace.after_first_beat = Some 200)
    by (vm_compute; reflexivity).
  assert (Ha : bpm_accepted 1000 600 Trace.after_first_beat = false)
    by (vm_compute; reflexivity).
  assert (Hdue : (usub 600 (lastRefresh Trace.after_first_beat) >? 500) = true)
    by (vm_compute; reflexivity).
  assert (Hup : is_above 1000 Trace.after_first_beat = true)
    by (vm_compute; reflexivity).
  destruct (loop_summary 1000 600 Trace.after_first_beat)
    as (s' & sd & pre & Hl & _ & _ & Hacc).
  rewrite Ha in Hacc. destruct Hacc as (_ & _ & _ & ->).
  rewrite Hdue in Hl. cbn [app] in Hl.
  assert (Hdraw : drawUI s' <> []) by (unfold drawUI; discriminate).
  split.
  - split; [exact Hc |]. split; [reflexivity |]. split; [reflexivity |].
    exists s'. split; [exact Hl |]. split; [exact Hdraw |].
    now rewrite (loop_with_edge_flag _ _ _ _ _ _ Hl).
  - intros Hclaim.
    destruct (Hclaim _ _ _ _ _ _ Hc eq_refl Hl) as (_ & _ & _ & Hout & _).
    contradiction.
Qed.

(** The sentinel case of C2 on a run: a candidate of 200 BPM is rejected
    while [millis()] reads 0 after a wrap-around; the time stamp is then 0,
    and the next detected beat, 600 ms later, computes no candidate. *)
Example rejected_candidate_at_clock_zero :
  candidate 1000 0 (Trace.state_after [(1000, 4294966996); (0, 4294967096)])
  = Some 200
  /\ lastBeatMs
       (Trace.state_after [(1000, 4294966996); (0, 4294967096); (1000, 0)]) = 0
  /\ beat_detected 1000 600
       (Trace.state_after
          [(1000, 4294966996); (0, 4294967096); (1000, 0); (0, 100)]) = true
  /\ candidate 1000 600
       (Trace.state_after
          [(1000, 4294966996); (0, 4294967096); (1000, 0); (0, 100)]) = None.
Proof.
  split; [vm_compute; reflexivity |]. split; [vm_compute; reflexivity |].
  split; vm_compute; reflexivity.
Qed.

Lemma first_candidate_sets_timestamp_witness :
  exists s' out,
    loop 1000 300 (setup_state (F := spec_float)) = Some (s', out)
    /\ candidate 1000 300 (setup_state (F := spec_float)) = None
    /\ bpm s' = 0 /\ lastBeatMs s' = 300.
Proof.
  assert (Hedge : rising_edge 1000 (setup_state (F := spec_float)) = true)
    by (vm_compute; reflexivity).
  assert (Hnow : 0 <= 300 < 2 ^ 32) by lia.
  destruct (first_candidate_sets_timestamp 1000 300 setup_state Hnow Hedge eq_refl)
    as (s' & out & Hl & Hc & Hb & _ & _ & Ht).
  exists s', out. repeat split; assumption.
Defined.

(** C4 as stated fails: a rising edge 100 ms after start-up, with the time
    stamp still 0, does not pass the refractory test ([100 - 0 > 250] is
    false) and leaves the time stamp 0. *)
Lemma early_first_candidate_is_discarded :
  (rising_edge 1000 (setup_state (F := spec_float)) = true
   /\ lastBeatMs (setup_state (F := spec_float)) = 0
   /\ exists s' out,
       loop 1000 100 (setup_state (F := spec_float)) = Some (s', out)
       /\ lastBeatMs s' = 0)
  /\ ~ (forall (raw now : Z) (s s' : state spec_float) (out : list draw_cmd),
          0 <= now < 2 ^ 32 ->
          rising_edge raw s = true -> lastBeatMs s = 0 ->
          loop raw now s = Some (s', out) ->
          lastBeatMs s' = now /\ bpm s' = bpm s /\ graphBuf s' = graphBuf s).
Proof.
  assert (Hedge : rising_edge 1000 (setup_state (F := spec_float)) = true)
    by (vm_compute; reflexivity).
  assert (Hb : beat_detected 1000 100 (setup_state (F := spec_float)) = false)
    by (vm_compute; reflexivity).
  destruct (loop_summary 1000 100 (setup_state (F := spec_float)))
    as (s' & sd & pre & Hl & _ & Hlast & _).
  rewrite Hb in Hlast. change (lastBeatMs setup_state) with 0 in Hlast.
  split.
  - split; [exact Hedge |]. split; [reflexivity |]. eauto.
  - intros Hclaim.
    assert (Hnow : 0 <= 100 < 2 ^ 32) by lia.
    destruct (Hclaim 1000 100 setup_state s' _ Hnow Hedge eq_refl Hl) as (Ht & _).
    rewrite Ht in Hlast. discriminate Hlast.
Qed.

Lemma refractory_enforcement_witness :
  exists s2 out2,
    loop 1000 500 Trace.after_first_beat = Some (s2, out2)
    /\ beat_detected 1000 500 Trace.after_first_beat = false
    /\ lastBeatMs s2 = 300.
Proof.
  destruct (refractory_enforcement (F := spec_float)) as (_ & _ & Hpair).
  destruct (Hpair 1000 300 setup_state (Trace.state_after [(1000, 300)]) []
              [(0, 400)] Trace.after_first_beat [] 1000 500)
    as (s2 & out2 & Hl & _ & Hb & _ & Ht & _).
  - vm_compute. reflexivity.
  - vm_compute. reflexivity.
  - repeat constructor.
  - vm_compute. reflexivity.
  - vm_compute. reflexivity.
  - vm_compute. reflexivity.
  - exists s2, out2. repeat split; assumption.
Defined.

(** C3 as stated fails: after a beat at 300 ms, the rising edge at 450 ms is
    discarded and the one at 600 ms, 150 ms later, is accepted: of these two
    candidates it is the second that updates the time stamp. *)
Lemma second_candidate_may_be_accepted :
  (lastBeatMs Trace.after_first_beat = 300
   /\ rising_edge 1000 Trace.after_first_beat = true
   /\ beat_detected 1000 450 Trace.after_first_beat = false
   /\ rising_edge 1000
        (Trace.state_after [(1000, 300); (0, 400); (1000, 450); (0, 470)]) = true
   /\ beat_detected 1000 600
        (Trace.state_after [(1000, 300); (0, 400); (1000, 450); (0, 470)]) = true
   /\ usub 600 450 < refractoryMs
   /\ lastBeatMs
        (Trace.state_after
           [(1000, 300); (0, 400); (1000, 450); (0, 470); (1000, 600)]) = 600)
  /\ ~ (forall (raw1 t1 : Z) (s0 s1 : state spec_float) (out1 : list draw_cmd)
               (mid : list (Z * Z)) (s1' : state spec_float)
               (outm : list draw_cmd) (raw2 t2 : Z),
          rising_edge raw1 s0 = true ->
          loop raw1 t1 s0 = Some (s1, out1) ->
          Forall (fun i => usub i.2 t1 < refractoryMs) mid ->
          run mid s1 = Some (s1', outm) ->
          rising_edge raw2 s1' = true ->
          usub t2 t1 < refractoryMs ->
          beat_detected raw1 t1 s0 = true /\ beat_detected raw2 t2 s1' = false).
Proof.
  split.
  - repeat split; vm_compute; reflexivity.
  - intros Hclaim.
    destruct (Hclaim 1000 450 Trace.after_first_beat
                (Trace.state_after [(1000, 300); (0, 400); (1000, 450)]) []
                [(0, 470)]
                (Trace.state_after [(1000, 300); (0, 400); (1000, 450); (0, 470)]) []
                1000 600) as [_ Hsecond].
    + vm_compute. reflexivity.
    + vm_compute. reflexivity.
    + repeat constructor.
    + vm_compute. reflexivity.
    + vm_compute. reflexivity.
    + vm_compute. reflexivity.
    + vm_compute in Hsecond. discriminate Hsecond.
Qed.

Lemma bpm_window_invariant_witness :
  (exists s',
      loop 0 501 (setup_state (F := spec_float))
      = Some (s', (if bpm_accepted 0 501 (setup_state (F := spec_float))
                   then drawUI s' else [])
                  ++ (if refresh_due 501 (setup_state (F := spec_float))
                      then drawUI s' else []))
      /\ In (PrintStr "--") (drawUI s'))
  /\ (exists s',
        loop 1000 900 Trace.after_first_beat
        = Some (s', (if bpm_accepted 1000 900 Trace.after_first_beat
                     then drawUI s' else [])
                    ++ (if refresh_due 900 Trace.after_first_beat
                        then drawUI s' else []))
        /\ 60 <= bpmDisplayed s' <= 130
        /\ In (PrintInt (bpmDisplayed s')) (drawUI s')).
Proof.
  destruct (bpm_window_invariant (F := spec_float)) as (_ & _ & _ & _ & _ & Hloop).
  assert (Hr0 : run [] (setup_state (F := spec_float)) = Some (setup_state, []))
    by reflexivity.
  assert (Hn0 : bpm_accepted 0 501 (setup_state (F := spec_float)) = false)
    by (vm_compute; reflexivity).
  assert (Hr1 : run [(1000, 300); (0, 400)] (setup_state (F := spec_float))
                = Some (Trace.after_first_beat, []))
    by (vm_compute; reflexivity).
  assert (Ha1 : bpm_accepted 1000 900 Trace.after_first_beat = true)
    by (vm_compute; reflexivity).
  split.
  - destruct (Hloop [] setup_state [] 0 501 Hr0) as (s' & Hl & Hunset & _).
    exists s'. split; [exact Hl |]. exact (proj1 (Hunset eq_refl Hn0)).
  - destruct (Hloop [(1000, 300); (0, 400)] Trace.after_first_beat [] 1000 900 Hr1)
      as (s' & Hl & _ & Hshown).
    destruct (Hshown (or_intror Ha1)) as (Hs & Hp & _).
    exists s'. split; [exact Hl |]. split; [exact Hs | exact Hp].
Defined.

(** C10 as stated fails: until the first frame is drawn the display shows
    the banner of [setup], which carries no placeholder.  With the clock at
    100, 200, 300 and 500 ms no refresh is due and no BPM is accepted: the
    iterations draw nothing, and of all the driver calls made since power-up
    none prints "--". *)
Lemma banner_shown_before_first_refresh :
  (setup (F := spec_float) true = Some (setup_state, banner)
   /\ run [(0, 100); (0, 200); (0, 300); (0, 500)] (setup_state (F := spec_float))
      = Some (Trace.state_after [(0, 100); (0, 200); (0, 300); (0, 500)], [])
   /\ accepted_count [(0, 100); (0, 200); (0, 300); (0, 500)]
        (setup_state (F := spec_float)) = 0%nat
   /\ ~ In (PrintStr "--") (banner ++ []))
  /\ ~ (forall (ins : list (Z * Z)) (s0 s' : state spec_float)
               (b out : list draw_cmd),
          setup true = Some (s0, b) -> run ins s0 = Some (s', out) ->
          accepted_count ins s0 = 0%nat ->
          In (PrintStr "--") (b ++ out)).
Proof.
  assert (Hsetup : setup (F := spec_float) true = Some (setup_state, banner))
    by reflexivity.
  assert (Hrun : run [(0, 100); (0, 200); (0, 300); (0, 500)]
                   (setup_state (F := spec_float))
                 = Some (Trace.state_after [(0, 100); (0, 200); (0, 300); (0, 500)],
                         []))
    by (vm_compute; reflexivity).
  assert (Hnone : accepted_count [(0, 100); (0, 200); (0, 300); (0, 500)]
                    (setup_state (F := spec_float)) = 0%nat)
    by (vm_compute; reflexivity).
  assert (Hbanner : ~ In (PrintStr "--") (banner ++ [])).
  { rewrite app_nil_r. intros Hin.
    repeat (destruct Hin as [Hin | Hin]; [discriminate Hin |]). exact Hin. }
  split.
  - split; [exact Hsetup |]. split; [exact Hrun |]. split; [exact Hnone | exact Hbanner].
  - intros Hclaim. apply Hbanner.
    exact (Hclaim _ _ _ _ _ Hsetup Hrun Hnone).
Qed.

(** * Further properties of the sketch *)

(** ** [mapBpmToY] *)

(** One BPM more moves the point up by at most one row. *)
Lemma mapBpmToY_step v :
  mapBpmToY v - 1 <= mapBpmToY (v + 1) <= mapBpmToY v.
Proof.
  rewrite !mapBpmToY_closed.
  set (a := Z.max 60 (Z.min 130 v)). set (b := Z.max 60 (Z.min 130 (v + 1))).
  assert (Hab : a <= b <= a + 1) by (subst a b; lia).
  assert (60 <= a) by (subst a; lia).
  pose proof (Z.div_mod (43 * (a - 60)) 70 ltac:(lia)) as Da.
  pose proof (Z.mod_pos_bound (43 * (a - 60)) 70 ltac:(lia)) as Ma.
  pose proof (Z.div_mod (43 * (b - 60)) 70 ltac:(lia)) as Db.
  pose proof (Z.mod_pos_bound (43 * (b - 60)) 70 ltac:(lia)) as Mb.
  lia.
Qed.

Lemma mapBpmToY_onto y :
  graphTop <= y <= graphBottom -> exists v, 60 <= v <= 130 /\ mapBpmToY v = y.
Proof.
  unfold graphTop, graphBottom, SCREEN_HEIGHT. intros Hy.
  assert (Hall : forallb (fun k => existsb (fun j => mapBpmToY (60 + Z.of_nat j)
                                                    =? 20 + Z.of_nat k)
                                     (seq 0 71)) (seq 0 44) = true)
    by (vm_compute; reflexivity).
  rewrite forallb_forall in Hall.
  specialize (Hall (Z.to_nat (y - 20)) ltac:(apply in_seq; lia)).
  apply existsb_exists in Hall as (j & Hj & He).
  apply in_seq in Hj. apply Z.eqb_eq in He.
  exists (60 + Z.of_nat j). split; [lia |]. rewrite He. lia.
Qed.

(** X1: on the BPM axis the graph has no gaps and no jumps: one BPM more
    moves the mapped row up by at most one, and every row of the graph area
    is the image of some BPM of the window. *)
Theorem mapBpmToY_steps_and_covers :
  (forall v, mapBpmToY v - 1 <= mapBpmToY (v + 1) <= mapBpmToY v)
  /\ (forall y, graphTop <= y <= graphBottom ->
        exists v, 60 <= v <= 130 /\ mapBpmToY v = y).
Proof. split; [exact mapBpmToY_step | exact mapBpmToY_onto]. Qed.

Lemma mapBpmToY_steps_and_covers_witness :
  exists v, 60 <= v <= 130 /\ mapBpmToY v = 41.
Proof.
  destruct mapBpmToY_steps_and_covers as [_ Honto].
  apply (Honto 41). unfold graphTop, graphBottom, SCREEN_HEIGHT. lia.
Defined.

(** ** [setup] *)

(** The filling loop of lines 93-95 after [n] rounds. *)
Lemma fill_lookup (y : Z) (n : nat) (buf : list Z) :
  (n <= length buf)%nat ->
  foldl (fill_step y) buf (seq 0 n) = replicate n y ++ drop n buf.
Proof.
  induction n as [|n IH]; intros Hn.
  - cbn. now rewrite drop_0.
  - rewrite seq_S, foldl_app, IH by lia. cbn [foldl Nat.add]. unfold fill_step.
    destruct (lookup_lt_is_Some_2 buf n ltac:(lia)) as [x Hx].
    rewrite (drop_S buf x n Hx).
    rewrite insert_app_r_alt by (rewrite length_replicate; lia).
    rewrite length_replicate, Nat.sub_diag. cbn [insert list_insert].
    rewrite replicate_S_end, <- app_assoc. reflexivity.
Qed.

(** X2: the filling loop of [setup] overwrites every slot of the array,
    whatever it held: the graph starts as the flat line of 95 BPM (row 42)
    and satisfies the invariant of the graph buffer. *)
Theorem setup_fills_graph (buf : list Z) (y : Z) :
  length buf = Z.to_nat SCREEN_WIDTH ->
  foldl (fill_step y) buf (seq 0 (Z.to_nat SCREEN_WIDTH))
  = replicate (Z.to_nat SCREEN_WIDTH) y
  /\ (graphTop <= y <= graphBottom ->
      graph_ok (foldl (fill_step y) buf (seq 0 (Z.to_nat SCREEN_WIDTH)))).
Proof.
  intros Hlen.
  assert (Hfill : foldl (fill_step y) buf (seq 0 (Z.to_nat SCREEN_WIDTH))
                  = replicate (Z.to_nat SCREEN_WIDTH) y).
  { rewrite fill_lookup by lia. rewrite drop_ge by lia. apply app_nil_r. }
  split; [exact Hfill |]. intros Hy. rewrite Hfill. split.
  - apply length_replicate.
  - now apply Forall_replicate.
Qed.

Lemma setup_fills_graph_witness :
  foldl (fill_step (mapBpmToY 95)) (replicate 128 0) (seq 0 (Z.to_nat SCREEN_WIDTH))
  = replicate (Z.to_nat SCREEN_WIDTH) (mapBpmToY 95)
  /\ graph_ok (foldl (fill_step (mapBpmToY 95)) (replicate 128 0)
                 (seq 0 (Z.to_nat SCREEN_WIDTH))).
Proof.
  destruct (setup_fills_graph (replicate 128 0) (mapBpmToY 95) eq_refl)
    as [Hfill Hok].
  split; [exact Hfill |]. apply Hok. apply mapBpmToY_range.
Defined.

(** ** [drawUI] and [loop] *)

Section FurtherLoopProperties.

Context {F : Type} `{FloatArith F}.
Implicit Types s : state F.

(** X3: an iteration draws the frame of the state it ends in once for an
    accepted BPM and once more when the periodic refresh is due (more than
    500 ms since the last one, which it then resets to the current time),
    and nothing else: with neither, the display is not touched. *)
Theorem loop_draws_current_state raw now s :
  exists s' out,
    loop raw now s = Some (s', out)
    /\ out = (if bpm_accepted raw now s then drawUI s' else [])
             ++ (if refresh_due now s then drawUI s' else [])
    /\ lastRefresh s' = (if refresh_due now s then now else lastRefresh s)
    /\ (out = [] <-> bpm_accepted raw now s = false /\ refresh_due now s = false).
Proof.
  destruct (loop_frames raw now s) as (s' & Hl & Hr).
  eexists s', _. split; [exact Hl |]. split; [reflexivity |]. split; [exact Hr |].
  pose proof (drawUI_nonempty s') as Hne.
  destruct (bpm_accepted raw now s), (refresh_due now s); cbn [app]; split;
    try (intros [? ?]; discriminate); try (intros _; split; reflexivity);
    try reflexivity; intros Hnil.
  - destruct (drawUI s'); [contradiction | discriminate Hnil].
  - rewrite app_nil_r in Hnil. contradiction.
  - contradiction.
Qed.

(** X4: the detector fires at most once per rising transition.  A rising
    edge needs the previous sample classified below the threshold; after a
    sample classified above, the next iteration sees no rising edge, detects
    no beat and computes no candidate, whatever its sample and clock. *)
Theorem rising_edge_once raw1 now1 s s1 out1 raw2 :
  loop raw1 now1 s = Some (s1, out1) ->
  (rising_edge raw2 s1 = true ->
   is_above raw1 s = false /\ is_above raw2 s1 = true)
  /\ (is_above raw1 s = true ->
      forall now2,
        rising_edge raw2 s1 = false /\ beat_detected raw2 now2 s1 = false
        /\ candidate raw2 now2 s1 = None /\ bpm_accepted raw2 now2 s1 = false).
Proof.
  intros Hl. pose proof (loop_with_edge_flag _ _ _ _ _ _ Hl) as Hprev.
  unfold bpm_accepted, candidate, beat_detected, rising_edge.
  rewrite Hprev. split.
  - intros Hedge. apply andb_prop in Hedge as [Ha Hn].
    split; [| exact Ha]. now destruct (is_above raw1 s).
  - intros Ha now2. rewrite Ha. cbn. rewrite andb_false_r. cbn. auto.
Qed.

Lemma usub_wrap t d :
  0 <= t < 2 ^ 32 -> 0 <= d < 2 ^ 32 -> usub (ulong (t + d)) t = d.
Proof.
  intros Ht Hd. unfold usub, ulong.
  rewrite Zminus_mod_idemp_l. replace (t + d - t) with d by lia.
  now apply Z.mod_small.
Qed.

(** X5: the interval is measured modulo 2^32, so it survives the wrap-around
    of [millis()]: a rising edge [d] ms after the last beat, with
    [250 < d < 2^32], is detected and yields the candidate [60000 / d] also
    when the clock has wrapped in between. *)
Theorem interval_across_clock_wrap raw d s :
  0 <= lastBeatMs s < 2 ^ 32 -> lastBeatMs s <> 0 ->
  rising_edge raw s = true -> refractoryMs < d < 2 ^ 32 ->
  elapsed (ulong (lastBeatMs s + d)) s = d
  /\ beat_detected raw (ulong (lastBeatMs s + d)) s = true
  /\ candidate raw (ulong (lastBeatMs s + d)) s = Some (60000 / d).
Proof.
  intros Ht Hz Hedge Hd. unfold refractoryMs in Hd.
  assert (He : elapsed (ulong (lastBeatMs s + d)) s = d)
    by (apply usub_wrap; lia).
  assert (Hb : beat_detected raw (ulong (lastBeatMs s + d)) s = true).
  { unfold beat_detected. rewrite Hedge, He. cbn.
    apply Z.gtb_lt. unfold refractoryMs. lia. }
  split; [exact He |]. split; [exact Hb |].
  unfold candidate. rewrite Hb, He.
  destruct (Z.eqb_spec (lastBeatMs s) 0); [contradiction |]. cbn.
  apply bpm_of_interval_spec. lia.
Qed.

Lemma accept_quotient_window e :
  0 < e -> (accept (60000 / e) = true <-> 459 <= e <= 1000).
Proof.
  intros He. rewrite accept_spec.
  pose proof (Z.div_mod 60000 e ltac:(lia)) as Hdm.
  pose proof (Z.mod_pos_bound 60000 e He) as Hm.
  set (q := 60000 / e) in *. split; intros Hq; nia.
Qed.

(** X6: a detected beat updates the BPM exactly when its interval to the
    previous beat is between 459 and 1000 ms, both included; the BPM is then
    [60000 / interval].  Shorter or longer intervals leave the BPM, the
    displayed BPM and the graph as they were. *)
Theorem accepted_interval_window raw now s :
  beat_detected raw now s = true -> lastBeatMs s <> 0 ->
  exists s' out,
    loop raw now s = Some (s', out)
    /\ candidate raw now s = Some (60000 / elapsed now s)
    /\ (bpm_accepted raw now s = true <-> 459 <= elapsed now s <= 1000)
    /\ (459 <= elapsed now s <= 1000 ->
        bpm s' = 60000 / elapsed now s /\ bpmDisplayed s' = 60000 / elapsed now s
        /\ graphBuf s' = pushGraph (graphBuf s) (60000 / elapsed now s))
    /\ (~ 459 <= elapsed now s <= 1000 ->
        bpm s' = bpm s /\ bpmDisplayed s' = bpmDisplayed s
        /\ graphBuf s' = graphBuf s).
Proof.
  intros Hb Hz.
  assert (He : refractoryMs < elapsed now s).
  { unfold beat_detected in Hb. apply andb_prop in Hb as [_ Hr].
    now apply Z.gtb_lt in Hr. }
  unfold refractoryMs in He.
  assert (Hc : candidate raw now s = Some (60000 / elapsed now s)).
  { unfold candidate. rewrite Hb.
    destruct (Z.eqb_spec (lastBeatMs s) 0); [contradiction |]. cbn.
    apply bpm_of_interval_spec. lia. }
  pose proof (accept_quotient_window (elapsed now s) ltac:(lia)) as Hw.
  destruct (loop_summary raw now s) as (s' & sd & pre & Hl & _ & _ & Hacc).
  eexists s', _. split; [exact Hl |]. split; [exact Hc |].
  unfold bpm_accepted in *. rewrite Hc in *.
  split; [exact Hw |].
  destruct (accept (60000 / elapsed now s)) eqn:Ha.
  - destruct Hacc as (c & [= <-] & _ & Hbpm & Hdisp & Hbuf & _).
    split; [intros _; now repeat split |].
    intros Hn. exfalso. apply Hn. apply Hw. reflexivity.
  - destruct Hacc as (Hbpm & Hdisp & Hbuf & _).
    split; [| intros _; now repeat split].
    intros Hy. apply Hw in Hy. discriminate Hy.
Qed.

(** X7: the displayed BPM is always the persisted BPM: an iteration keeps
    the two variables equal, and they are equal all along a run from
    [setup]. *)
Theorem displayed_bpm_is_persisted :
  (forall raw now s s' out,
      bpm s = bpmDisplayed s -> loop raw now s = Some (s', out) ->
      bpm s' = bpmDisplayed s')
  /\ (forall ins s s' out,
        bpm s = bpmDisplayed s -> run ins s = Some (s', out) ->
        bpm s' = bpmDisplayed s')
  /\ (forall ins s' out,
        run ins (setup_state (F := F)) = Some (s', out) ->
        bpm s' = bpmDisplayed s').
Proof.
  assert (Hstep : forall raw now s s' out,
             bpm s = bpmDisplayed s -> loop raw now s = Some (s', out) ->
             bpm s' = bpmDisplayed s').
  { intros raw now s s' out Heq Hl.
    destruct (loop_summary raw now s) as (s1 & sd & pre & Hl' & _ & _ & Hacc).
    rewrite Hl' in Hl. injection Hl as -> _.
    destruct (bpm_accepted raw now s).
    - destruct Hacc as (c & _ & _ & -> & -> & _). reflexivity.
    - destruct Hacc as (-> & -> & _). exact Heq. }
  assert (Hrun : forall ins s s' out,
             bpm s = bpmDisplayed s -> run ins s = Some (s', out) ->
             bpm s' = bpmDisplayed s').
  { induction ins as [|[raw now] rest IH]; intros s s' out Heq Hr.
    - cbn in Hr. now injection Hr as <- _.
    - rewrite run_cons in Hr.
      destruct (loop raw now s) as [[s1 o1]|] eqn:Hl; [| discriminate Hr].
      destruct (run rest s1) as [[s2 o2]|] eqn:Hr2; [| discriminate Hr].
      injection Hr as <- _. eapply IH; [| exact Hr2]. eapply Hstep; eassumption. }
  split; [exact Hstep |]. split; [exact Hrun |].
  intros ins s' out. now apply Hrun.
Qed.

(** The graph buffer of a run is the initial one after the pushes of the
    accepted values. *)
Lemma run_graph_fold ins :
  forall s s' out,
    run ins s = Some (s', out) ->
    graphBuf s' = foldl pushGraph (graphBuf s) (accepted_bpms ins s)
    /\ Forall (fun c => 60 <= c <= 130) (accepted_bpms ins s)
    /\ length (accepted_bpms ins s) = accepted_count ins s
    /\ bpm s' = default (bpm s) (last (accepted_bpms ins s)).
Proof.
  induction ins as [|[raw now] rest IH]; intros s s' out Hr.
  - cbn in Hr. injection Hr as <- _. cbn. repeat split. constructor.
  - rewrite run_cons in Hr. cbn [accepted_bpms accepted_count].
    destruct (loop_summary raw now s) as (s1 & sd & pre & Hl & _ & _ & Hacc).
    rewrite Hl in Hr |- *.
    destruct (run rest s1) as [[s2 o2]|] eqn:Hr2; [| discriminate Hr].
    injection Hr as <- _.
    destruct (IH _ _ _ Hr2) as (Hg & Hall & Hlen & Hbpm).
    unfold bpm_accepted in *.
    destruct (candidate raw now s) as [c|] eqn:Hc;
      [destruct (accept c) eqn:Ha |].
    + destruct Hacc as (c' & [= <-] & Hw & Hb1 & _ & Hg1 & _).
      cbn [foldl length]. rewrite <- Hg1.
      split; [exact Hg |]. split; [now constructor |].
      split; [now rewrite Hlen |].
      rewrite last_cons. rewrite Hbpm, Hb1. now destruct (last _).
    + destruct Hacc as (Hb1 & _ & Hg1 & _).
      rewrite <- Hg1, <- Hb1. now rewrite Hlen.
    + destruct Hacc as (Hb1 & _ & Hg1 & _).
      rewrite <- Hg1, <- Hb1. now rewrite Hlen.
Qed.

(** X8: after a run the graph buffer holds, oldest first, the last
    [SCREEN_WIDTH] entries of its initial contents followed by the
    coordinates of the BPM values the run accepted, each of which lies in
    [60, 130]; the persisted BPM is the last accepted value, or the initial
    one when none was accepted. *)
Theorem graph_records_accepted_bpms ins s s' out :
  length (graphBuf s) = Z.to_nat SCREEN_WIDTH ->
  run ins s = Some (s', out) ->
  graphBuf s'
  = drop (length (accepted_bpms ins s))
      (graphBuf s ++ map mapBpmToY (accepted_bpms ins s))
  /\ Forall (fun c => 60 <= c <= 130) (accepted_bpms ins s)
  /\ length (accepted_bpms ins s) = accepted_count ins s
  /\ bpm s' = default (bpm s) (last (accepted_bpms ins s)).
Proof.
  intros Hlen Hr. destruct (run_graph_fold ins s s' out Hr) as (Hg & Hrest).
  split; [| exact Hrest]. rewrite Hg. now apply pushGraph_many.
Qed.

(** X9: the value 0 of the time stamp means "no beat yet" also when it is a
    clock reading: a beat detected when [millis()] reads 0 (the clock has
    wrapped) leaves the time stamp 0, and the next detected beat computes no
    BPM, whenever it comes. *)
Theorem beat_at_clock_zero_is_forgotten raw s s' out :
  beat_detected raw 0 s = true ->
  loop raw 0 s = Some (s', out) ->
  lastBeatMs s' = 0
  /\ forall raw' now',
      candidate raw' now' s' = None /\ bpm_accepted raw' now' s' = false.
Proof.
  intros Hb Hl.
  destruct (loop_summary raw 0 s) as (s1 & sd & pre & Hl' & _ & Hlast & _).
  rewrite Hl' in Hl. injection Hl as -> _. rewrite Hb in Hlast.
  split; [exact Hlast |]. intros raw' now'.
  unfold bpm_accepted, candidate. rewrite Hlast. cbn.
  rewrite andb_false_r. auto.
Qed.

Lemma setup_graph_flat :
  graphBuf (setup_state (F := F)) = replicate (Z.to_nat SCREEN_WIDTH) (mapBpmToY 95).
Proof. reflexivity. Qed.

Lemma pushGraph_uint8 buf v :
  length buf = Z.to_nat SCREEN_WIDTH ->
  Forall (fun y => 0 <= y < 2 ^ 8) buf ->
  Forall (fun y => 0 <= y < 2 ^ 8) (pushGraph buf v).
Proof.
  intros Hlen Hall. rewrite pushGraph_shift by exact Hlen.
  apply Forall_app. split; [now apply Forall_drop |].
  constructor; [| constructor].
  pose proof (mapBpmToY_range v) as Hy.
  unfold graphTop, graphBottom, SCREEN_HEIGHT in Hy. lia.
Qed.

Lemma loop_c_typed raw now s s' out :
  0 <= now < 2 ^ 32 -> c_typed s -> loop raw now s = Some (s', out) ->
  c_typed s'.
Proof.
  intros Hnow ((Hlb & Hlr) & (Hb & Hd) & Hlen & Hall) Hl.
  destruct (loop_frames raw now s) as (s2 & Hl2 & Hr).
  rewrite Hl in Hl2. injection Hl2 as <- _.
  destruct (loop_summary raw now s) as (s1 & sd & pre & Hl' & _ & Hlast & Hacc).
  rewrite Hl' in Hl. injection Hl as -> _.
  unfold c_typed. rewrite Hr, Hlast.
  split; [split; [now destruct (beat_detected raw now s)
                 | now destruct (refresh_due now s)] |].
  destruct (bpm_accepted raw now s).
  - destruct Hacc as (c & _ & Hc & -> & -> & -> & _).
    split; [lia |]. split; [now rewrite pushGraph_length |].
    now apply pushGraph_uint8.
  - destruct Hacc as (-> & -> & -> & _). now repeat split.
Qed.

(** X10: every variable keeps a value of its C type.  After [setup], and
    after every iteration whose clock reading is an [unsigned long], the
    time stamps are within [0, 2^32), the BPM values within the 16-bit
    [int], and the graph buffer has [SCREEN_WIDTH] slots of [uint8_t]
    values: nothing the sketch stores is out of the range of its
    variable. *)
Theorem variables_keep_their_c_types :
  c_typed (setup_state (F := F))
  /\ (forall raw now s s' out,
        0 <= now < 2 ^ 32 -> c_typed s -> loop raw now s = Some (s', out) ->
        c_typed s')
  /\ (forall ins s' out,
        Forall (fun i => 0 <= i.2 < 2 ^ 32) ins ->
        run ins (setup_state (F := F)) = Some (s', out) ->
        c_typed s').
Proof.
  assert (Hinit : c_typed (setup_state (F := F))).
  { unfold c_typed. rewrite setup_graph_flat.
    change (lastBeatMs setup_state) with 0. change (lastRefresh setup_state) with 0.
    change (bpm setup_state) with 0. change (bpmDisplayed setup_state) with 0.
    split; [lia |]. split; [lia |]. split; [apply length_replicate |].
    apply Forall_replicate.
    pose proof (mapBpmToY_range 95) as Hy.
    unfold graphTop, graphBottom, SCREEN_HEIGHT in Hy. lia. }
  split; [exact Hinit |]. split; [exact loop_c_typed |].
  intros ins. generalize (setup_state (F := F)) Hinit.
  induction ins as [|[raw now] rest IH]; intros s Hs s' out Hall Hr.
  - cbn in Hr. now injection Hr as <- _.
  - apply Forall_cons in Hall as [Hnow Hall]. cbn [snd] in Hnow.
    rewrite run_cons in Hr.
    destruct (loop raw now s) as [[s1 o1]|] eqn:Hl; [| discriminate Hr].
    destruct (run rest s1) as [[s2 o2]|] eqn:Hr2; [| discriminate Hr].
    injection Hr as <- _.
    apply (IH s1 (loop_c_typed _ _ _ _ _ Hnow Hs Hl) s2 o2 Hall Hr2).
Qed.

Lemma pushGraph_graph_ok buf v : graph_ok buf -> graph_ok (pushGraph buf v).
Proof.
  intros [Hlen Hall]. split; [now rewrite pushGraph_length |].
  rewrite pushGraph_shift by exact Hlen.
  apply Forall_app. split; [now apply Forall_drop |].
  constructor; [apply mapBpmToY_range | constructor].
Qed.

Lemma rd_graph_ok buf (i : nat) :
  graph_ok buf -> (i < Z.to_nat SCREEN_WIDTH)%nat ->
  graphTop <= rd buf i <= graphBottom.
Proof.
  intros [Hlen Hall] Hi. unfold rd.
  destruct (lookup_lt_is_Some_2 buf i ltac:(lia)) as [y Hy].
  rewrite Hy. cbn. exact (Forall_lookup_1 _ _ _ _ Hall Hy).
Qed.

Lemma drawUI_in_graph_area s :
  graph_ok (graphBuf s) -> Forall in_graph_area (drawUI s).
Proof.
  intros Hok. unfold drawUI. cbv zeta.
  pose proof (mapBpmToY_range 60). pose proof (mapBpmToY_range 95).
  pose proof (mapBpmToY_range 130).
  apply Forall_app. split; [| apply Forall_app; split].
  - repeat constructor;
      try (unfold SCREEN_WIDTH, SCREEN_HEIGHT; lia); try tauto.
    destruct (bpm_text_cases s) as [[_ ->] | [_ ->]]; exact I.
  - apply List.Forall_forall. intros d Hin.
    apply in_map_iff in Hin as (x & <- & Hx). apply in_seq in Hx.
    change (Z.to_nat (SCREEN_WIDTH - 1)) with 127%nat in Hx.
    unfold graph_segment. cbn [in_graph_area].
    pose proof (rd_graph_ok _ (x - 1) Hok ltac:(change (Z.to_nat SCREEN_WIDTH) with 128%nat; lia)).
    pose proof (rd_graph_ok _ x Hok ltac:(change (Z.to_nat SCREEN_WIDTH) with 128%nat; lia)).
    unfold SCREEN_WIDTH. repeat split; lia.
  - repeat constructor.
Qed.

Lemma loop_in_graph_area raw now s s' out :
  graph_ok (graphBuf s) -> loop raw now s = Some (s', out) ->
  graph_ok (graphBuf s') /\ Forall in_graph_area out.
Proof.
  intros Hok Hl.
  destruct (loop_frames raw now s) as (s2 & Hl2 & _).
  rewrite Hl2 in Hl. injection Hl as -> <-.
  destruct (loop_summary raw now s) as (s1 & sd & pre & Hl' & _ & _ & Hacc).
  rewrite Hl' in Hl2. injection Hl2 as -> _.
  assert (Hok' : graph_ok (graphBuf s')).
  { destruct (bpm_accepted raw now s).
    - destruct Hacc as (c & _ & _ & _ & _ & -> & _). now apply pushGraph_graph_ok.
    - destruct Hacc as (_ & _ & -> & _). exact Hok. }
  split; [exact Hok' |].
  pose proof (drawUI_in_graph_area s' Hok') as Hd.
  apply Forall_app. split.
  - destruct (bpm_accepted raw now s); [exact Hd | constructor].
  - destruct (refresh_due now s); [exact Hd | constructor].
Qed.

(** X11: lines and cursors stay on the screen.  Pushes keep every slot of
    the graph buffer a row of the graph area; a frame drawn from such a
    buffer has all its lines within columns 0..127 and rows 20..63 and its
    cursors within the display; and so has every frame of every run from
    [setup]. *)
Theorem drawing_stays_in_graph_area :
  (forall buf v, graph_ok buf -> graph_ok (pushGraph buf v))
  /\ (forall s, graph_ok (graphBuf s) -> Forall in_graph_area (drawUI s))
  /\ (forall ins s' out,
        run ins (setup_state (F := F)) = Some (s', out) ->
        graph_ok (graphBuf s') /\ Forall in_graph_area out).
Proof.
  split; [exact pushGraph_graph_ok |]. split; [exact drawUI_in_graph_area |].
  assert (Hinit : graph_ok (graphBuf (setup_state (F := F)))).
  { rewrite setup_graph_flat. split; [apply length_replicate |].
    apply Forall_replicate, mapBpmToY_range. }
  intros ins. generalize (setup_state (F := F)) Hinit.
  induction ins as [|[raw now] rest IH]; intros s Hs s' out Hr.
  - cbn in Hr. injection Hr as <- <-. split; [exact Hs | constructor].
  - rewrite run_cons in Hr.
    destruct (loop raw now s) as [[s1 o1]|] eqn:Hl; [| discriminate Hr].
    destruct (run rest s1) as [[s2 o2]|] eqn:Hr2; [| discriminate Hr].
    injection Hr as <- <-.
    destruct (loop_in_graph_area _ _ _ _ _ Hs Hl) as [Hs1 Ho1].
    destruct (IH s1 Hs1 s2 o2 Hr2) as [Hs2 Ho2].
    split; [exact Hs2 |]. apply Forall_app. now split.
Qed.

Lemma rd_pushGraph buf v (i : nat) :
  length buf = Z.to_nat SCREEN_WIDTH ->
  ((i < 127)%nat -> rd (pushGraph buf v) i = rd buf (S i))
  /\ rd (pushGraph buf v) 127 = mapBpmToY v.
Proof.
  intros Hlen. rewrite pushGraph_shift by exact Hlen.
  change (Z.to_nat SCREEN_WIDTH) with 128%nat in Hlen. unfold rd. split.
  - intros Hi. rewrite lookup_app_l by (rewrite length_drop; lia).
    now rewrite lookup_drop.
  - rewrite lookup_app_r by (rewrite length_drop; lia).
    rewrite length_drop, Hlen. reflexivity.
Qed.

(** X12: an accepted BPM shows at once and scrolls the graph: the frame
    drawn in the same iteration prints the new value, draws every segment of
    the previous curve one column further left, and joins the previous
    newest point to the new one at the right edge. *)
Theorem accepted_beat_scrolls_graph raw now s c :
  length (graphBuf s) = Z.to_nat SCREEN_WIDTH ->
  candidate raw now s = Some c -> accept c = true ->
  exists s' out,
    loop raw now s = Some (s', out)
    /\ In (PrintInt c) out
    /\ (forall x : nat,
          (1 <= x <= 126)%nat ->
          In (DrawLine (Z.of_nat x - 1) (rd (graphBuf s) x)
                (Z.of_nat x) (rd (graphBuf s) (S x))) out)
    /\ In (DrawLine 126 (rd (graphBuf s) 127) 127 (mapBpmToY c)) out.
Proof.
  intros Hlen Hc Ha.
  assert (Hacc : bpm_accepted raw now s = true)
    by (unfold bpm_accepted; now rewrite Hc).
  destruct (loop_frames raw now s) as (s' & Hl & _).
  destruct (loop_summary raw now s) as (s1 & sd & pre & Hl' & _ & _ & Hsum).
  rewrite Hl in Hl'. injection Hl' as <- _.
  rewrite Hacc in Hl, Hsum. destruct Hsum as (c' & Hc' & Hw & _ & Hd & Hg & _).
  rewrite Hc in Hc'. injection Hc' as <-.
  eexists s', _. split; [exact Hl |].
  assert (Hseg : forall x : nat,
             (1 <= x <= 127)%nat ->
             In (graph_segment (graphBuf s') x) (drawUI s')).
  { intros x Hx. unfold drawUI. cbv zeta. apply in_or_app. right.
    apply in_or_app. left. apply in_map. apply in_seq.
    change (Z.to_nat (SCREEN_WIDTH - 1)) with 127%nat. lia. }
  split; [| split].
  - apply in_or_app. left.
    destruct (bpm_text_cases s') as [[_ Ht] | [Hn _]]; [| lia].
    rewrite <- Hd, <- Ht. apply bpm_text_in_drawUI.
  - intros x Hx. apply in_or_app. left.
    specialize (Hseg x ltac:(lia)). unfold graph_segment in Hseg.
    rewrite Hg in Hseg.
    destruct (rd_pushGraph (graphBuf s) c (x - 1) Hlen) as [H1 _].
    destruct (rd_pushGraph (graphBuf s) c x Hlen) as [H2 _].
    rewrite H1, H2 in Hseg by lia.
    replace (S (x - 1)) with x in Hseg by lia. exact Hseg.
  - apply in_or_app. left.
    specialize (Hseg 127%nat ltac:(lia)). unfold graph_segment in Hseg.
    rewrite Hg in Hseg.
    destruct (rd_pushGraph (graphBuf s) c 126 Hlen) as [H1 _].
    destruct (rd_pushGraph (graphBuf s) c 0 Hlen) as [_ H2].
    change (127 - 1)%nat with 126%nat in Hseg.
    rewrite H1, H2 in Hseg by lia. exact Hseg.
Qed.

End FurtherLoopProperties.

(** ** The further properties on concrete runs (binary32 baseline) *)

Lemma rising_edge_once_witness :
  rising_edge 1000 (Trace.state_after [(1000, 300)]) = false
  /\ beat_detected 1000 900 (Trace.state_after [(1000, 300)]) = false
  /\ candidate 1000 900 (Trace.state_after [(1000, 300)]) = None
  /\ bpm_accepted 1000 900 (Trace.state_after [(1000, 300)]) = false.
Proof.
  assert (Hl : loop 1000 300 (setup_state (F := spec_float))
               = Some (Trace.state_after [(1000, 300)], []))
    by (vm_compute; reflexivity).
  assert (Hup : is_above 1000 (setup_state (F := spec_float)) = true)
    by (vm_compute; reflexivity).
  destruct (rising_edge_once 1000 300 setup_state
              (Trace.state_after [(1000, 300)]) [] 1000 Hl) as [_ Hnext].
  exact (Hnext Hup 900).
Defined.

Lemma interval_across_clock_wrap_witness :
  lastBeatMs (Trace.state_after [(1000, 4294967196); (0, 4294967246)]) = 4294967196
  /\ ulong (4294967196 + 600) = 500
  /\ elapsed (ulong (4294967196 + 600))
       (Trace.state_after [(1000, 4294967196); (0, 4294967246)]) = 600
  /\ candidate 1000 (ulong (4294967196 + 600))
       (Trace.state_after [(1000, 4294967196); (0, 4294967246)])
     = Some (60000 / 600).
Proof.
  assert (Ht : lastBeatMs (Trace.state_after [(1000, 4294967196); (0, 4294967246)])
               = 4294967196) by (vm_compute; reflexivity).
  assert (Hedge : rising_edge 1000
                    (Trace.state_after [(1000, 4294967196); (0, 4294967246)]) = true)
    by (vm_compute; reflexivity).
  assert (Hrange : 0 <= lastBeatMs
                          (Trace.state_after [(1000, 4294967196); (0, 4294967246)])
                   < 2 ^ 32) by (rewrite Ht; lia).
  assert (Hnz : lastBeatMs (Trace.state_after [(1000, 4294967196); (0, 4294967246)])
                <> 0) by (rewrite Ht; lia).
  assert (Hd : refractoryMs < 600 < 2 ^ 32) by (unfold refractoryMs; lia).
  destruct (interval_across_clock_wrap 1000 600
              (Trace.state_after [(1000, 4294967196); (0, 4294967246)])
              Hrange Hnz Hedge Hd) as (He & _ & Hc).
  rewrite Ht in He, Hc.
  split; [exact Ht |]. split; [reflexivity |]. split; [exact He | exact Hc].
Defined.

Lemma accepted_interval_window_witness :
  exists s' out,
    loop 1000 900 Trace.after_first_beat = Some (s', out)
    /\ candidate 1000 900 Trace.after_first_beat = Some (60000 / 600)
    /\ bpm_accepted 1000 900 Trace.after_first_beat = true
    /\ bpm s' = 60000 / 600
    /\ graphBuf s' = pushGraph (graphBuf Trace.after_first_beat) (60000 / 600).
Proof.
  assert (Hb : beat_detected 1000 900 Trace.after_first_beat = true)
    by (vm_compute; reflexivity).
  assert (Ht : lastBeatMs Trace.after_first_beat = 300)
    by (vm_compute; reflexivity).
  assert (He : elapsed 900 Trace.after_first_beat = 600)
    by (vm_compute; reflexivity).
  assert (Hnz : lastBeatMs Trace.after_first_beat <> 0) by (rewrite Ht; lia).
  destruct (accepted_interval_window 1000 900 Trace.after_first_beat Hb Hnz)
    as (s' & out & Hl & Hc & Hiff & Hin & _).
  rewrite He in Hc, Hiff, Hin.
  destruct Hin as (Hbpm & _ & Hg); [lia |].
  exists s', out. split; [exact Hl |]. split; [exact Hc |].
  split; [apply Hiff; lia |]. split; [exact Hbpm | exact Hg].
Defined.

Lemma displayed_bpm_is_persisted_witness :
  exists s' out,
    run [(1000, 300); (0, 400); (1000, 900)] (setup_state (F := spec_float))
    = Some (s', out)
    /\ bpm s' = bpmDisplayed s'.
Proof.
  destruct (displayed_bpm_is_persisted (F := spec_float)) as (_ & _ & Hrun).
  destruct (run [(1000, 300); (0, 400); (1000, 900)] (setup_state (F := spec_float)))
    as [[s' out]|] eqn:Hr.
  - exists s', out. split; [reflexivity |]. exact (Hrun _ _ _ Hr).
  - vm_compute in Hr. discriminate Hr.
Defined.

Lemma graph_records_accepted_bpms_witness :
  accepted_bpms [(1000, 300); (0, 400); (1000, 900)] (setup_state (F := spec_float))
  = [100]
  /\ exists s' out,
      run [(1000, 300); (0, 400); (1000, 900)] (setup_state (F := spec_float))
      = Some (s', out)
      /\ graphBuf s'
         = drop 1 (graphBuf (setup_state (F := spec_float)) ++ map mapBpmToY [100])
      /\ bpm s' = 100.
Proof.
  assert (Ha : accepted_bpms [(1000, 300); (0, 400); (1000, 900)]
                 (setup_state (F := spec_float)) = [100])
    by (vm_compute; reflexivity).
  assert (Hlen : length (graphBuf (setup_state (F := spec_float)))
                 = Z.to_nat SCREEN_WIDTH) by (vm_compute; reflexivity).
  split; [exact Ha |].
  destruct (run [(1000, 300); (0, 400); (1000, 900)] (setup_state (F := spec_float)))
    as [[s' out]|] eqn:Hr.
  - destruct (graph_records_accepted_bpms _ _ _ _ Hlen Hr) as (Hg & _ & _ & Hb).
    rewrite Ha in Hg, Hb.
    exists s', out. split; [reflexivity |]. split; [exact Hg | exact Hb].
  - vm_compute in Hr. discriminate Hr.
Defined.

Lemma beat_at_clock_zero_is_forgotten_witness :
  candidate 1000 0 (Trace.state_after [(1000, 4294966296); (0, 4294966396)])
  = Some 60
  /\ exists s' out,
      loop 1000 0 (Trace.state_after [(1000, 4294966296); (0, 4294966396)])
      = Some (s', out)
      /\ lastBeatMs s' = 0
      /\ candidate 1000 600 s' = None.
Proof.
  assert (Hc : candidate 1000 0
                 (Trace.state_after [(1000, 4294966296); (0, 4294966396)])
               = Some 60) by (vm_compute; reflexivity).
  assert (Hb : beat_detected 1000 0
                 (Trace.state_after [(1000, 4294966296); (0, 4294966396)])
               = true) by (vm_compute; reflexivity).
  split; [exact Hc |].
  destruct (loop_frames 1000 0
              (Trace.state_after [(1000, 4294966296); (0, 4294966396)]))
    as (s' & Hl & _).
  destruct (beat_at_clock_zero_is_forgotten _ _ _ _ Hb Hl) as [Ht Hnext].
  eexists s', _. split; [exact Hl |]. split; [exact Ht |].
  exact (proj1 (Hnext 1000 600)).
Defined.

Lemma variables_keep_their_c_types_witness :
  exists s' out,
    run [(1000, 300); (0, 400); (1000, 900)] (setup_state (F := spec_float))
    = Some (s', out)
    /\ c_typed s'.
Proof.
  destruct (variables_keep_their_c_types (F := spec_float)) as (_ & _ & Hrun).
  destruct (run [(1000, 300); (0, 400); (1000, 900)] (setup_state (F := spec_float)))
    as [[s' out]|] eqn:Hr.
  - exists s', out. split; [reflexivity |].
    apply (Hrun [(1000, 300); (0, 400); (1000, 900)] s' out); [| exact Hr].
    repeat constructor; cbn; lia.
  - vm_compute in Hr. discriminate Hr.
Defined.

Lemma drawing_stays_in_graph_area_witness :
  exists s' out,
    run [(1000, 300); (0, 400); (1000, 900)] (setup_state (F := spec_float))
    = Some (s', out)
    /\ graph_ok (graphBuf s') /\ Forall in_graph_area out.
Proof.
  destruct (drawing_stays_in_graph_area (F := spec_float)) as (_ & _ & Hrun).
  destruct (run [(1000, 300); (0, 400); (1000, 900)] (setup_state (F := spec_float)))
    as [[s' out]|] eqn:Hr.
  - exists s', out. split; [reflexivity |]. exact (Hrun _ _ _ Hr).
  - vm_compute in Hr. discriminate Hr.
Defined.

Lemma accepted_beat_scrolls_graph_witness :
  exists s' out,
    loop 1000 900 Trace.after_first_beat = Some (s', out)
    /\ In (PrintInt 100) out
    /\ In (DrawLine 126 (rd (graphBuf Trace.after_first_beat) 127) 127
             (mapBpmToY 100)) out.
Proof.
  assert (Hlen : length (graphBuf Trace.after_first_beat) = Z.to_nat SCREEN_WIDTH)
    by (vm_compute; reflexivity).
  assert (Hc : candidate 1000 900 Trace.after_first_beat = Some 100)
    by (vm_compute; reflexivity).
  assert (Ha : accept 100 = true) by reflexivity.
  destruct (accepted_beat_scrolls_graph 1000 900 Trace.after_first_beat 100
              Hlen Hc Ha) as (s' & out & Hl & Hp & _ & Hr).
  exists s', out. split; [exact Hl |]. split; [exact Hp | exact Hr].
Defined.
